(** * Argdown panel: speaker extraction and speaker-filter node mutations

    A shallow embedding of [extractSpeakers] and [buildSpeakerMutations]
    from [src/panels/ArgdownPanel.tsx], together with the JavaScript
    primitives they rely on, and the properties stated about them; then of
    the panel's state, its event handlers and controls, and the file-name
    helpers of the same file.

    Conventions of the embedding:
    - a JavaScript string is a [string]; its characters stand for the code
      units that [sort] and [===] compare;
    - an optional field ([tags?: string[]]) is an [option]; [x || []] is
      [orEmpty x];
    - a plain object used as a dictionary is a [JsObject]: the sequence that
      [Object.entries] enumerates, whose keys are pairwise distinct;
    - an array is a [list]; [push] appends at the end;
    - the two loops' mutable arrays are threaded as a [Lists] state. *)

From Stdlib Require Import List String Ascii Bool Arith ZArith Lia.
From Stdlib Require Import Sorting.Sorted Sorting.Permutation.
Import ListNotations.
Open Scope string_scope.

(** ** JavaScript primitives *)

(** [s.startsWith(p)] *)
Definition startsWith (s p : string) : bool := String.prefix p s.

(** [s.includes(p)] on strings: [p] occurs somewhere in [s]. *)
Fixpoint str_includes (s p : string) : bool :=
  String.prefix p s ||
  match s with
  | EmptyString => false
  | String _ s' => str_includes s' p
  end.

(** [s.replace(pat, rep)] with a string pattern: only the first occurrence
    of [pat] is replaced; [s] is returned unchanged when there is none. *)
Fixpoint str_replace (s pat rep : string) : string :=
  if String.prefix pat s
  then rep ++ String.substring (String.length pat)
                               (String.length s - String.length pat) s
  else match s with
       | EmptyString => EmptyString
       | String c s' => String c (str_replace s' pat rep)
       end.

(** [arr.includes(x)] on an array of strings (strict equality). *)
Definition arr_includes (arr : list string) (x : string) : bool :=
  existsb (String.eqb x) arr.

(** [arr.some(p)] *)
Definition some {A : Type} (arr : list A) (p : A -> bool) : bool :=
  existsb p arr.

(** [arr.join(sep)] *)
Definition join (arr : list string) (sep : string) : string :=
  String.concat sep arr.

(** [arr.push(x)] *)
Definition push {A : Type} (arr : list A) (x : A) : list A := arr ++ [x].

(** [x || []] for an optional array. *)
Definition orEmpty {A : Type} (x : option (list A)) : list A :=
  match x with
  | Some l => l
  | None => []
  end.

(** [a || b] where [a] is an optional string: [undefined] and the empty
    string are both falsy. *)
Definition orString (a : option string) (b : string) : string :=
  match a with
  | Some s => if String.eqb s "" then b else s
  | None => b
  end.

(** A [Set<string>] is kept as the list of its members in insertion order;
    [set.add(x)] leaves the set alone when [x] is already a member. *)
Definition set_add (set : list string) (x : string) : list string :=
  if arr_includes set x then set else push set x.

(** [arr.sort()] with the default comparator: ascending order of the
    strings' code units. The result of a sort with a consistent comparator
    is fixed by the language (a stable sorted rearrangement); it is computed
    here by insertion. *)
Fixpoint sort_insert (x : string) (sorted : list string) : list string :=
  match sorted with
  | [] => [x]
  | y :: rest =>
      if String.leb x y then x :: y :: rest else y :: sort_insert x rest
  end.

Definition sort (arr : list string) : list string :=
  fold_right sort_insert [] arr.

(** The order of the default comparator, as a relation. *)
Definition str_le (a b : string) : Prop := String.leb a b = true.

(** Pairwise distinct keys, as a decidable check. *)
Fixpoint distinct (keys : list string) : bool :=
  match keys with
  | [] => true
  | k :: rest => negb (arr_includes rest k) && distinct rest
  end.

(** A plain object used as a dictionary: what [Object.entries] enumerates,
    in enumeration order. An object holds one value per key. *)
Record JsObject (V : Type) : Type := mkObject {
  entries : list (string * V);
  entries_distinct : distinct (map fst entries) = true
}.
Arguments mkObject {V} _ _.
Arguments entries {V} _.
Arguments entries_distinct {V} _.

(** [Object.keys(o)] and [Object.values(o)] *)
Definition keys {V : Type} (o : JsObject V) : list string :=
  map fst (entries o).
Definition values {V : Type} (o : JsObject V) : list V :=
  map snd (entries o).

(** ** Data model

    [ArgdownMapData], [FilterOptions] and [NodeMutation] are declared in the
    renderer package; the records below hold the fields the two functions
    read or write, under the names the code uses ([tags], [id] and [map]
    are prefixed where one name serves several records). *)

(** [interface TaggedItem { tags?: string[] }] *)
Record TaggedItem : Type := mkItem {
  item_tags : option (list string)
}.

(** An entry of the top-level tag array: a string, or an object read
    through its [tag] and [title] fields. *)
Inductive TagEntry : Type :=
| TagString (s : string)
| TagObject (tag title : option string).

(** [response.tags]: absent, an array of entries, or an object whose keys
    are the tag names. *)
Inductive TagsField : Type :=
| TagsAbsent
| TagsArray (l : list TagEntry)
| TagsDict (tagKeys : list string).

(** A node of the rendered map ([node.id], [node.tags]). *)
Record MapNode : Type := mkNode {
  node_id : string;
  node_tags : option (list string)
}.

(** [response.map]; only [nodes] is read by the two functions. *)
Record MapView : Type := mkMap {
  nodes : option (list MapNode)
}.

Record Response : Type := mkResponse {
  resp_tags : TagsField;
  arguments : option (JsObject TaggedItem);
  statements : option (JsObject TaggedItem);
  resp_map : option MapView
}.

Record ArgdownMapData : Type := mkData {
  response : option Response
}.

(** Relation-type labels of the [argumentTypes] filter. *)
Inductive ArgumentType : Type := support | attack | undercut.

(** Modelled from the spec: the fields of [FilterOptions] other than
    [speakers], which is the only one the code reads. *)
Record FilterOptions : Type := mkFilters {
  speakers : option (list string);
  argumentTypes : option (list ArgumentType);
  filter_tags : option (list string);
  showClaims : option bool;
  showArguments : option bool
}.

(** The mutation objects the function builds: [nodeIds], [effect],
    [reason], [priority]. *)
Inductive Effect : Type := emphasize | dim.

Record NodeMutation : Type := mkMutation {
  nodeIds : list string;
  effect : Effect;
  reason : string;
  priority : Z
}.

(** ** extractSpeakers *)

(** Body of the loop over the top-level tag array. *)
Definition addTopLevelTag (speakers : list string) (tag : TagEntry)
  : list string :=
  let tagStr :=
    match tag with
    | TagString s => s
    | TagObject t title => orString t (orString title "")
    end in
  if startsWith tagStr "speaker-"
  then set_add speakers (str_replace tagStr "speaker-" "")
  else speakers.

(** Body of the loop over the keys of an object-shaped [response.tags]. *)
Definition addTagKey (speakers : list string) (tagKey : string)
  : list string :=
  if startsWith tagKey "speaker-"
  then set_add speakers (str_replace tagKey "speaker-" "")
  else speakers.

(** Body of the inner loop over the tags of an argument or statement. *)
Definition addItemTag (speakers : list string) (tag : string) : list string :=
  if startsWith tag "speaker-"
  then set_add speakers (str_replace tag "speaker-" "")
  else if negb (str_includes tag "-")
       then set_add speakers tag
       else speakers.

(** Body of the outer loop over [Object.values]. *)
Definition addItem (speakers : list string) (item : TaggedItem)
  : list string :=
  match item_tags item with
  | Some ts => fold_left addItemTag ts speakers
  | None => speakers
  end.

(** The set of speakers accumulated before the final sort. *)
Definition collectSpeakers (r : Response) : list string :=
  let speakers0 : list string := [] in
  let speakers1 :=
    match resp_tags r with
    | TagsArray l => fold_left addTopLevelTag l speakers0
    | TagsDict ks => fold_left addTagKey ks speakers0
    | TagsAbsent => speakers0
    end in
  let speakers2 :=
    match arguments r with
    | Some o => fold_left addItem (values o) speakers1
    | None => speakers1
    end in
  match statements r with
  | Some o => fold_left addItem (values o) speakers2
  | None => speakers2
  end.

Definition extractSpeakers (data : ArgdownMapData) : list string :=
  match response data with
  | None => []
  | Some r => sort (collectSpeakers r)
  end.

(** ** buildSpeakerMutations *)

(** The two arrays filled by the classification loops. *)
Record Lists : Type := mkLists {
  matchingNodeIds : list string;
  nonMatchingNodeIds : list string
}.

Definition pushMatching (st : Lists) (id : string) : Lists :=
  mkLists (push (matchingNodeIds st) id) (nonMatchingNodeIds st).

Definition pushNonMatching (st : Lists) (id : string) : Lists :=
  mkLists (matchingNodeIds st) (push (nonMatchingNodeIds st) id).

(** [allFilterTags = [...speakers.map(s => `speaker-${s}`), ...speakers]] *)
Definition allFilterTagsOf (sp : list string) : list string :=
  let speakerTags := map (fun s => "speaker-" ++ s) sp in
  speakerTags ++ sp.

(** [allFilterTags.some(tag => tags.includes(tag))] *)
Definition matchesFilter (allFilterTags tags : list string) : bool :=
  some allFilterTags (fun tag => arr_includes tags tag).

(** Body of the loop over [Object.entries(response.arguments)]. *)
Definition checkArgument (allFilterTags : list string) (st : Lists)
  (entry : string * TaggedItem) : Lists :=
  let '(id, arg) := entry in
  let argTags := orEmpty (item_tags arg) in
  if matchesFilter allFilterTags argTags
  then pushMatching st id
  else pushNonMatching st id.

(** [stmtTags.some(t => t.startsWith('speaker-') || !t.includes('-'))] *)
Definition hasSpeakerTagOf (stmtTags : list string) : bool :=
  some stmtTags
    (fun t => startsWith t "speaker-" || negb (str_includes t "-")).

(** Body of the loop over [Object.entries(response.statements)]. *)
Definition checkStatement (allFilterTags : list string) (st : Lists)
  (entry : string * TaggedItem) : Lists :=
  let '(id, stmt) := entry in
  let stmtTags := orEmpty (item_tags stmt) in
  let hasSpeakerTag := hasSpeakerTagOf stmtTags in
  if negb hasSpeakerTag || matchesFilter allFilterTags stmtTags
  then pushMatching st id
  else pushNonMatching st id.

(** Body of the loop over [response.map.nodes]. *)
Definition checkNode (allFilterTags : list string) (st : Lists)
  (node : MapNode) : Lists :=
  let nodeId := node_id node in
  let nodeTags := orEmpty (node_tags node) in
  if negb (arr_includes (matchingNodeIds st) nodeId)
     && negb (arr_includes (nonMatchingNodeIds st) nodeId)
  then if matchesFilter allFilterTags nodeTags
       then pushMatching st nodeId
       else st
  else st.

Definition argumentEntries (r : Response) : list (string * TaggedItem) :=
  match arguments r with
  | Some o => entries o
  | None => []
  end.

Definition statementEntries (r : Response) : list (string * TaggedItem) :=
  match statements r with
  | Some o => entries o
  | None => []
  end.

Definition mapNodes (r : Response) : list MapNode :=
  match resp_map r with
  | Some m => orEmpty (nodes m)
  | None => []
  end.

(** The state of the two arrays after the three loops. *)
Definition classify (r : Response) (sp : list string) : Lists :=
  let allFilterTags := allFilterTagsOf sp in
  let st0 := mkLists [] [] in
  let st1 := fold_left (checkArgument allFilterTags) (argumentEntries r) st0 in
  let st2 := fold_left (checkStatement allFilterTags) (statementEntries r) st1 in
  fold_left (checkNode allFilterTags) (mapNodes r) st2.

Definition emphasizeMutation (sp ids : list string) : NodeMutation :=
  mkMutation ids emphasize ("Speaker: " ++ join sp ", ") 10%Z.

Definition dimMutation (ids : list string) : NodeMutation :=
  mkMutation ids dim "Not matching filter" 0%Z.

(** The final part of the function: at most two pushes on [mutations]. *)
Definition emit (sp : list string) (st : Lists) : list NodeMutation :=
  let mutations0 : list NodeMutation := [] in
  let mutations1 :=
    if Nat.ltb 0 (List.length (matchingNodeIds st))
    then push mutations0 (emphasizeMutation sp (matchingNodeIds st))
    else mutations0 in
  if Nat.ltb 0 (List.length (nonMatchingNodeIds st))
  then push mutations1 (dimMutation (nonMatchingNodeIds st))
  else mutations1.

Definition buildSpeakerMutations (data : ArgdownMapData)
  (filters : FilterOptions) : list NodeMutation :=
  match response data with
  | None => []
  | Some r =>
      match speakers filters with
      | None => []
      | Some [] => []
      | Some sp => emit sp (classify r sp)
      end
  end.

(** Identifiers carried by the mutations of a given effect. *)
Definition effect_eqb (a b : Effect) : bool :=
  match a, b with
  | emphasize, emphasize => true
  | dim, dim => true
  | _, _ => false
  end.

Definition idsWithEffect (e : Effect) (ms : list NodeMutation) : list string :=
  flat_map nodeIds (filter (fun m => effect_eqb (effect m) e) ms).

(** ** Tests applied by the classification loops *)

(** The test an argument entry passes to be pushed on [matchingNodeIds]. *)
Definition argumentMatches (allFilterTags : list string)
  (entry : string * TaggedItem) : bool :=
  matchesFilter allFilterTags (orEmpty (item_tags (snd entry))).

(** The test a statement entry passes to be pushed on [matchingNodeIds]. *)
Definition statementMatches (allFilterTags : list string)
  (entry : string * TaggedItem) : bool :=
  negb (hasSpeakerTagOf (orEmpty (item_tags (snd entry))))
  || matchesFilter allFilterTags (orEmpty (item_tags (snd entry))).

(** The test a map node passes to be pushed on [matchingNodeIds], once its
    identifier is found in neither array. *)
Definition nodeMatches (allFilterTags : list string) (node : MapNode) : bool :=
  matchesFilter allFilterTags (orEmpty (node_tags node)).

(** ** Sample inputs *)

Definition noTags : TaggedItem := mkItem None.
Definition tagged (ts : list string) : TaggedItem := mkItem (Some ts).

Definition speakersOnly (sp : list string) : FilterOptions :=
  mkFilters (Some sp) None None None None.

(** Statements [{a: no tags}], arguments [{b: ["speaker-x"],
    c: ["speaker-y"]}]; the statement's [tags] field is a parameter so that
    both an absent field and an empty array can be tried. *)
Definition sampleArguments : JsObject TaggedItem :=
  mkObject [("b", tagged ["speaker-x"]); ("c", tagged ["speaker-y"])] eq_refl.

Definition sampleStatements (aTags : option (list string))
  : JsObject TaggedItem :=
  mkObject [("a", mkItem aTags)] eq_refl.

Definition sampleData (aTags : option (list string)) : ArgdownMapData :=
  mkData (Some (mkResponse TagsAbsent (Some sampleArguments)
                           (Some (sampleStatements aTags)) None)).

(** The identifier [a] is a key of both dictionaries. *)
Definition sharedKeyData : ArgdownMapData :=
  mkData (Some (mkResponse TagsAbsent
                  (Some (mkObject [("a", noTags)] eq_refl))
                  (Some (mkObject [("a", noTags)] eq_refl))
                  None)).

(** Two map nodes carry the identifier [n]; only the first is tagged. *)
Definition twinNodesResponse : Response :=
  mkResponse TagsAbsent None None
    (Some (mkMap (Some [mkNode "n" (Some ["speaker-x"]); mkNode "n" None]))).

Definition twinNodesData : ArgdownMapData := mkData (Some twinNodesResponse).

(** A map with tags in several shapes, for [extractSpeakers]. *)
Definition taggedData : ArgdownMapData :=
  mkData (Some (mkResponse
    (TagsArray [TagString "speaker-zoe"; TagObject None (Some "speaker-amy");
                TagObject (Some "topic-x") None; TagString "misc"])
    (Some (mkObject [("arg1", tagged ["bob"; "speaker-zoe"; "pro-con"])] eq_refl))
    (Some (mkObject [("s1", tagged ["speaker-carl"]); ("s2", noTags)] eq_refl))
    None)).

(** Argument [{b: tags ["alice"]}] and filter [{speakers: ["alice"]}]. *)
Definition aliceResponse : Response :=
  mkResponse TagsAbsent (Some (mkObject [("b", tagged ["alice"])] eq_refl))
             None None.

(** A map whose only node, [g], is a group absent from both dictionaries
    and tagged for another speaker. *)
Definition groupNodeResponse : Response :=
  mkResponse TagsAbsent (Some sampleArguments) (Some (sampleStatements None))
    (Some (mkMap (Some [mkNode "g" (Some ["speaker-y"])]))).

(** Statement [s] carries only a topic tag; argument [u] is untagged. *)
Definition topicResponse : Response :=
  mkResponse TagsAbsent
    (Some (mkObject [("u", noTags)] eq_refl))
    (Some (mkObject [("s", tagged ["topic-ai"]); ("t", tagged ["bob"])]
                    eq_refl))
    None.

(** ** File names

    [isArgdownFile] and the title that [handleFileSelected] derives from a
    path. Strings range over code units below 256, where [toLowerCase] maps
    [A]-[Z] and the Latin-1 capitals to their small letters and where the
    [i] flag of a regular expression folds [A]-[Z] only. *)

Fixpoint str_map (f : ascii -> ascii) (s : string) : string :=
  match s with
  | EmptyString => EmptyString
  | String c s' => String (f c) (str_map f s')
  end.

Definition inRange (lo hi n : N) : bool := (lo <=? n)%N && (n <=? hi)%N.

(** One code unit of [s.toLowerCase()]. *)
Definition lowerCodeUnit (c : ascii) : ascii :=
  let n := N_of_ascii c in
  if inRange 65 90 n || inRange 192 214 n || inRange 216 222 n
  then ascii_of_N (n + 32)
  else c.

(** [s.toLowerCase()] *)
Definition toLowerCase (s : string) : string := str_map lowerCodeUnit s.

(** [s.endsWith(suffix)] *)
Fixpoint endsWith (s suffix : string) : bool :=
  String.eqb s suffix ||
  match s with
  | EmptyString => false
  | String _ s' => endsWith s' suffix
  end.

Definition isArgdownFile (path : string) : bool :=
  let lower := toLowerCase path in
  endsWith lower ".argdown" || endsWith lower ".ad".

(** [s.split('/')]: the pieces between the separators, never empty. *)
Fixpoint split_slash (s : string) : list string :=
  match s with
  | EmptyString => [EmptyString]
  | String c s' =>
      if Ascii.eqb c "/"
      then EmptyString :: split_slash s'
      else match split_slash s' with
           | piece :: rest => String c piece :: rest
           | [] => [String c EmptyString]
           end
  end.

(** [path.split('/').pop() || path] *)
Definition fileName (path : string) : string :=
  let last := List.last (split_slash path) EmptyString in
  if String.eqb last "" then path else last.

(** How the [i] flag folds a code unit against an ASCII pattern letter. *)
Definition foldCase (c : ascii) : ascii :=
  let n := N_of_ascii c in
  if inRange 65 90 n then ascii_of_N (n + 32) else c.

(** [\.(argdown|ad|md)$] with the [i] flag, tried at the start of [s]: the
    whole of [s] is a dot and one of the three words. *)
Definition isExtension (s : string) : bool :=
  let folded := str_map foldCase s in
  String.eqb folded ".argdown" || String.eqb folded ".ad"
  || String.eqb folded ".md".

(** [s.replace(/\.(argdown|ad|md)$/i, '')]: the leftmost position from
    which the pattern matches up to the end of [s] is where [s] is cut. *)
Fixpoint stripExtension (s : string) : string :=
  if isExtension s then EmptyString
  else match s with
       | EmptyString => EmptyString
       | String c s' => String c (stripExtension s')
       end.

(** The title [handleFileSelected] gives to a parsed file. *)
Definition fileTitle (path : string) : string :=
  let filename := fileName path in
  stripExtension filename.

(** ** Panel state and its updates *)

(** [interface ArgdownPanelState] *)
Record ArgdownPanelState : Type := mkState {
  data : option ArgdownMapData;
  title : option string;
  filters : FilterOptions;
  highlightedNode : option string;
  showFilterPanel : bool;
  isLoading : bool;
  error : option string
}.

(** The filter object [{}]. *)
Definition noFilters : FilterOptions := mkFilters None None None None None.

Definition initialState : ArgdownPanelState :=
  mkState None None noFilters None false false None.

(** Payloads of the panel events. *)
Record LoadPayload : Type := mkLoadPayload {
  load_data : ArgdownMapData;
  load_title : option string
}.

Record HighlightPayload : Type := mkHighlightPayload {
  nodeId : string;
  scrollTo : option bool
}.

Record ResetPayload : Type := mkResetPayload {
  resetFilters : option bool
}.

Record FilePayload : Type := mkFilePayload {
  path : string;
  content : option string
}.

(** [payload.title || null] *)
Definition orNull (s : option string) : option string :=
  match s with
  | Some t => if String.eqb t "" then None else Some t
  | None => None
  end.

Definition handleLoadArgdown (payload : LoadPayload)
  (prev : ArgdownPanelState) : ArgdownPanelState :=
  mkState (Some (load_data payload)) (orNull (load_title payload)) noFilters
          (highlightedNode prev) (showFilterPanel prev) (isLoading prev)
          (error prev).

Definition handleSetFilters (payload : FilterOptions)
  (prev : ArgdownPanelState) : ArgdownPanelState :=
  mkState (data prev) (title prev) payload (highlightedNode prev)
          (showFilterPanel prev) (isLoading prev) (error prev).

Definition handleHighlightNode (payload : HighlightPayload)
  (prev : ArgdownPanelState) : ArgdownPanelState :=
  mkState (data prev) (title prev) (filters prev) (Some (nodeId payload))
          (showFilterPanel prev) (isLoading prev) (error prev).

(** [payload.resetFilters ? {} : prev.filters] *)
Definition handleResetView (payload : ResetPayload)
  (prev : ArgdownPanelState) : ArgdownPanelState :=
  mkState (data prev) (title prev)
          (match resetFilters payload with
           | Some true => noFilters
           | _ => filters prev
           end)
          None (showFilterPanel prev) (isLoading prev) (error prev).

(** [{ ...filters, speakers: v }] *)
Definition withSpeakers (f : FilterOptions) (v : option (list string))
  : FilterOptions :=
  mkFilters v (argumentTypes f) (filter_tags f) (showClaims f)
            (showArguments f).

Definition toggleSpeakerFilter (speaker : string)
  (prev : ArgdownPanelState) : ArgdownPanelState :=
  let currentSpeakers := orEmpty (speakers (filters prev)) in
  let newSpeakers :=
    if arr_includes currentSpeakers speaker
    then filter (fun s => negb (String.eqb s speaker)) currentSpeakers
    else (currentSpeakers ++ [speaker])%list in
  mkState (data prev) (title prev)
          (withSpeakers (filters prev)
             (if Nat.ltb 0 (List.length newSpeakers)
              then Some newSpeakers else None))
          (highlightedNode prev) (showFilterPanel prev) (isLoading prev)
          (error prev).

Definition clearFilters (prev : ArgdownPanelState) : ArgdownPanelState :=
  mkState (data prev) (title prev) noFilters (highlightedNode prev)
          (showFilterPanel prev) (isLoading prev) (error prev).

(** The filter button's [onClick]. *)
Definition toggleFilterPanel (prev : ArgdownPanelState)
  : ArgdownPanelState :=
  mkState (data prev) (title prev) (filters prev) (highlightedNode prev)
          (negb (showFilterPanel prev)) (isLoading prev) (error prev).

(** The three updates of [handleFileSelected]. *)
Definition fileLoading (prev : ArgdownPanelState) : ArgdownPanelState :=
  mkState (data prev) (title prev) (filters prev) (highlightedNode prev)
          (showFilterPanel prev) true None.

Definition fileParsed (parsed : ArgdownMapData) (parsedTitle : string)
  (prev : ArgdownPanelState) : ArgdownPanelState :=
  mkState (Some parsed) (Some parsedTitle) noFilters (highlightedNode prev)
          (showFilterPanel prev) false None.

Definition fileFailed (message : string) (prev : ArgdownPanelState)
  : ArgdownPanelState :=
  mkState (data prev) (title prev) (filters prev) (highlightedNode prev)
          (showFilterPanel prev) false (Some message).

(** What awaiting [processArgdown(content)] gives: the parsed data, or a
    thrown value, which carries a message when it is an [Error]. *)
Inductive ParseOutcome : Type :=
| Parsed (parsed : ArgdownMapData)
| Thrown (message : option string).

(** [handleFileSelected]: the state updates it issues, in order. The parser
    is the renderer package's; it is a parameter here. *)
Definition handleFileSelected (processArgdown : string -> ParseOutcome)
  (payload : FilePayload) : list (ArgdownPanelState -> ArgdownPanelState) :=
  match content payload with
  | None => []
  | Some c =>
      if String.eqb c "" then []
      else
        [fileLoading;
         match processArgdown c with
         | Parsed parsed => fileParsed parsed (fileTitle (path payload))
         | Thrown (Some message) => fileFailed message
         | Thrown None => fileFailed "Failed to parse argdown content"
         end]
  end.

(** Applying updates in the order they were issued, with no other update
    in between. *)
Definition runUpdates (updates : list (ArgdownPanelState -> ArgdownPanelState))
  (st : ArgdownPanelState) : ArgdownPanelState :=
  fold_left (fun s u => u s) updates st.

(** The callbacks registered with [events.on]: an event without payload is
    ignored, except [reset-view], which then takes [{}]. *)
Inductive PanelEvent : Type :=
| LoadArgdownEvent (payload : option LoadPayload)
| SetFiltersEvent (payload : option FilterOptions)
| HighlightNodeEvent (payload : option HighlightPayload)
| ResetViewEvent (payload : option ResetPayload).

Definition onEvent (event : PanelEvent) (st : ArgdownPanelState)
  : ArgdownPanelState :=
  match event with
  | LoadArgdownEvent (Some payload) => handleLoadArgdown payload st
  | SetFiltersEvent (Some payload) => handleSetFilters payload st
  | HighlightNodeEvent (Some payload) => handleHighlightNode payload st
  | ResetViewEvent (Some payload) => handleResetView payload st
  | ResetViewEvent None => handleResetView (mkResetPayload None) st
  | _ => st
  end.

(** The panel's own controls. *)
Inductive Control : Type :=
| ClickSpeaker (speaker : string)
| ClickClear
| ClickFilterButton.

Definition onControl (c : Control) (st : ArgdownPanelState)
  : ArgdownPanelState :=
  match c with
  | ClickSpeaker speaker => toggleSpeakerFilter speaker st
  | ClickClear => clearFilters st
  | ClickFilterButton => toggleFilterPanel st
  end.

(** Values derived from the state on each render. *)
Definition availableSpeakers (st : ArgdownPanelState) : list string :=
  match data st with
  | None => []
  | Some d => extractSpeakers d
  end.

Definition nodeMutations (st : ArgdownPanelState) : list NodeMutation :=
  match data st with
  | None => []
  | Some d => buildSpeakerMutations d (filters st)
  end.

(** [(state.filters.speakers?.length || 0) > 0] *)
Definition hasActiveFilters (st : ArgdownPanelState) : bool :=
  Nat.ltb 0 (List.length (orEmpty (speakers (filters st)))).

(** [state.filters.speakers?.includes(speaker)], as a condition. *)
Definition isActive (st : ArgdownPanelState) (speaker : string) : bool :=
  match speakers (filters st) with
  | Some l => arr_includes l speaker
  | None => false
  end.

(** Everything that updates the state: a panel event, one of the panel's
    controls, or a file event handled with a given parser. *)
Inductive Step : Type :=
| EventStep (event : PanelEvent)
| ControlStep (c : Control)
| FileStep (payload : FilePayload).

Definition step (processArgdown : string -> ParseOutcome) (s : Step)
  (st : ArgdownPanelState) : ArgdownPanelState :=
  match s with
  | EventStep event => onEvent event st
  | ControlStep c => onControl c st
  | FileStep payload =>
      runUpdates (handleFileSelected processArgdown payload) st
  end.

Definition run (processArgdown : string -> ParseOutcome) (steps : list Step)
  (st : ArgdownPanelState) : ArgdownPanelState :=
  fold_left (fun s x => step processArgdown x s) steps st.

(** A [set-filters] event that carries a payload. *)
Definition isSetFilters (s : Step) : bool :=
  match s with
  | EventStep (SetFiltersEvent (Some _)) => true
  | _ => false
  end.

(** The speaker filter is absent, or is a non-empty array without
    repetitions. *)
Definition tidySpeakers (st : ArgdownPanelState) : Prop :=
  match speakers (filters st) with
  | None => True
  | Some l => l <> [] /\ NoDup l
  end.

(** A parser that accepts the text [ok] only. *)
Definition sampleParser (text : string) : ParseOutcome :=
  if String.eqb text "ok" then Parsed (sampleData None)
  else Thrown (Some "syntax error").




(** ** Which speaker a tag names

    The two tests of [extractSpeakers], as functions of the tag. *)

(** The string read from an entry of the top-level tag array. *)
Definition entryString (tag : TagEntry) : string :=
  match tag with
  | TagString s => s
  | TagObject t title => orString t (orString title "")
  end.

(** A top-level tag names a speaker only through the [speaker-] prefix. *)
Definition speakerOfTopLevelTag (tag : string) : option string :=
  if startsWith tag "speaker-"
  then Some (str_replace tag "speaker-" "")
  else None.

(** A tag of an argument or statement names a speaker through the prefix,
    or by being free of hyphens. *)
Definition speakerOfItemTag (tag : string) : option string :=
  if startsWith tag "speaker-"
  then Some (str_replace tag "speaker-" "")
  else if negb (str_includes tag "-") then Some tag else None.

(** The strings [extractSpeakers] reads from [response.tags]. *)
Definition topLevelTags (r : Response) : list string :=
  match resp_tags r with
  | TagsArray l => map entryString l
  | TagsDict ks => ks
  | TagsAbsent => []
  end.

(** The arguments and statements, in the order they are scanned. *)
Definition taggedItems (r : Response) : list (string * TaggedItem) :=
  (argumentEntries r ++ statementEntries r)%list.

(** An item names [x] when one of its tags is [speaker-x], or is [x] itself
    and free of hyphens. *)
Definition itemNames (item : TaggedItem) (x : string) : Prop :=
  In ("speaker-" ++ x) (orEmpty (item_tags item)) \/
  (In x (orEmpty (item_tags item)) /\ str_includes x "-" = false).

(** ** Facts about the JavaScript primitives *)

Lemma arr_includes_In (arr : list string) (x : string) :
  arr_includes arr x = true <-> In x arr.
Proof.
  unfold arr_includes. rewrite existsb_exists. split.
  - intros [y [Hy Heq]]. apply String.eqb_eq in Heq. now subst.
  - intros H. exists x. split; [assumption | apply String.eqb_refl].
Qed.

Lemma arr_includes_not_In (arr : list string) (x : string) :
  arr_includes arr x = false <-> ~ In x arr.
Proof.
  rewrite <- arr_includes_In. destruct (arr_includes arr x); split; congruence.
Qed.

Lemma distinct_NoDup (l : list string) : distinct l = true <-> NoDup l.
Proof.
  induction l as [|k rest IH]; simpl.
  - split; [constructor | reflexivity].
  - rewrite andb_true_iff, negb_true_iff, arr_includes_not_In, IH.
    split.
    + intros [Hk Hr]. now constructor.
    + intros H. inversion H; subst. now split.
Qed.

Lemma keys_NoDup {V : Type} (o : JsObject V) : NoDup (keys o).
Proof. apply distinct_NoDup, entries_distinct. Qed.

(** An object holds one value per key. *)
Lemma NoDup_fst_functional {V : Type} (l : list (string * V)) k v v' :
  NoDup (map fst l) -> In (k, v) l -> In (k, v') l -> v = v'.
Proof.
  induction l as [|[k0 v0] l IH]; simpl; [contradiction|].
  intros Hnd [H1|H1] [H2|H2]; inversion Hnd; subst.
  - congruence.
  - inversion H1; subst. exfalso. apply H3.
    change k with (fst (k, v')). now apply in_map.
  - inversion H2; subst. exfalso. apply H3.
    change k with (fst (k, v)). now apply in_map.
  - now apply IH.
Qed.

Lemma matchesFilter_true (allFilterTags tags : list string) :
  matchesFilter allFilterTags tags = true <->
  exists tag, In tag allFilterTags /\ In tag tags.
Proof.
  unfold matchesFilter, some. rewrite existsb_exists.
  split; intros [t [H1 H2]]; exists t; split; try assumption;
    now apply arr_includes_In.
Qed.

Lemma matchesFilter_nil_r (allFilterTags : list string) :
  matchesFilter allFilterTags [] = false.
Proof.
  unfold matchesFilter, some. induction allFilterTags; simpl; auto.
Qed.

(** A loop preserves whatever each of its iterations preserves. *)
Lemma fold_left_preserves {A B : Type} (P : A -> Prop) (f : A -> B -> A) :
  (forall a b, P a -> P (f a b)) ->
  forall l a, P a -> P (fold_left f l a).
Proof.
  intros Hf l. induction l as [|b l IH]; simpl; intros a Ha; auto.
Qed.

(** ** The default sort *)

Section DefaultSort.

Lemma str_le_trans (s1 s2 s3 : string) :
  str_le s1 s2 -> str_le s2 s3 -> str_le s1 s3.
Proof.
  unfold str_le, String.leb. revert s2 s3.
  induction s1 as [|c1 s1 IH]; intros [|c2 s2] [|c3 s3]; simpl;
    try congruence.
  unfold Ascii.compare.
  destruct (N.compare_spec (N_of_ascii c1) (N_of_ascii c2));
  destruct (N.compare_spec (N_of_ascii c2) (N_of_ascii c3));
  destruct (N.compare_spec (N_of_ascii c1) (N_of_ascii c3));
    try congruence; try lia; try (intros; exfalso; lia).
  apply IH.
Qed.

Lemma str_le_flip (a b : string) : String.leb a b = false -> str_le b a.
Proof.
  intros H. destruct (String.leb_total a b) as [H'|H']; [congruence|exact H'].
Qed.

Lemma sort_insert_perm (x : string) (l : list string) :
  Permutation (sort_insert x l) (x :: l).
Proof.
  induction l as [|y rest IH]; simpl; [reflexivity|].
  destruct (String.leb x y); [reflexivity|].
  rewrite IH. apply perm_swap.
Qed.

Lemma sort_perm (l : list string) : Permutation (sort l) l.
Proof.
  induction l as [|x l IH]; simpl; [reflexivity|].
  rewrite sort_insert_perm. now apply perm_skip.
Qed.

Lemma sort_insert_sorted (x : string) (l : list string) :
  StronglySorted str_le l -> StronglySorted str_le (sort_insert x l).
Proof.
  induction 1 as [|y rest Hs IH Hall]; simpl.
  - repeat constructor.
  - destruct (String.leb x y) eqn:Hxy.
    + constructor; [now constructor|].
      constructor; [exact Hxy|].
      eapply Forall_impl; [|exact Hall].
      intros z Hz. eapply str_le_trans; eassumption.
    + constructor; [exact IH|].
      eapply Permutation_Forall; [symmetry; apply sort_insert_perm|].
      constructor; [now apply str_le_flip | exact Hall].
Qed.

Lemma sort_sorted (l : list string) : StronglySorted str_le (sort l).
Proof.
  induction l as [|x l IH]; simpl; [constructor|].
  now apply sort_insert_sorted.
Qed.

Lemma sort_NoDup (l : list string) : NoDup l -> NoDup (sort l).
Proof.
  intros H. eapply Permutation_NoDup; [symmetry; apply sort_perm | exact H].
Qed.

End DefaultSort.

(** ** The speaker set has no repeated member *)

Section SpeakerSet.

Lemma set_add_NoDup (set : list string) (x : string) :
  NoDup set -> NoDup (set_add set x).
Proof.
  intros H. unfold set_add, push.
  destruct (arr_includes set x) eqn:E; [exact H|].
  apply arr_includes_not_In in E.
  apply NoDup_rev in H. rewrite <- (rev_involutive (set ++ [x])).
  apply NoDup_rev. rewrite rev_app_distr. simpl.
  constructor; [now rewrite <- in_rev | exact H].
Qed.

Lemma addTopLevelTag_NoDup set tag :
  NoDup set -> NoDup (addTopLevelTag set tag).
Proof.
  intros H. unfold addTopLevelTag.
  destruct (startsWith _ _); auto using set_add_NoDup.
Qed.

Lemma addTagKey_NoDup set tagKey :
  NoDup set -> NoDup (addTagKey set tagKey).
Proof.
  intros H. unfold addTagKey.
  destruct (startsWith _ _); auto using set_add_NoDup.
Qed.

Lemma addItemTag_NoDup set tag :
  NoDup set -> NoDup (addItemTag set tag).
Proof.
  intros H. unfold addItemTag.
  destruct (startsWith _ _); [|destruct (negb _)];
    auto using set_add_NoDup.
Qed.

Lemma addItem_NoDup set item :
  NoDup set -> NoDup (addItem set item).
Proof.
  intros H. unfold addItem. destruct (item_tags item); [|exact H].
  apply fold_left_preserves; auto using addItemTag_NoDup.
Qed.

Lemma collectSpeakers_NoDup (r : Response) : NoDup (collectSpeakers r).
Proof.
  unfold collectSpeakers.
  assert (H1 : NoDup match resp_tags r with
                     | TagsArray l => fold_left addTopLevelTag l []
                     | TagsDict ks => fold_left addTagKey ks []
                     | TagsAbsent => []
                     end).
  { destruct (resp_tags r).
    - constructor.
    - apply fold_left_preserves;
        [apply addTopLevelTag_NoDup | constructor].
    - apply fold_left_preserves; [apply addTagKey_NoDup | constructor]. }
  destruct (statements r), (arguments r);
    repeat (apply fold_left_preserves; [apply addItem_NoDup|]); exact H1.
Qed.

End SpeakerSet.

(** C7. For every data input, the sequence returned by [extractSpeakers]
    is sorted in ascending lexicographic order (each entry is below or
    equal to every later one in the order of [String.leb]) and contains no
    duplicate entries. *)
Theorem extractSpeakers_sorted_nodup (data : ArgdownMapData) :
  StronglySorted str_le (extractSpeakers data) /\
  NoDup (extractSpeakers data).
Proof.
  unfold extractSpeakers. destruct (response data) as [r|].
  - split; [apply sort_sorted | apply sort_NoDup, collectSpeakers_NoDup].
  - split; constructor.
Qed.

(** ** The classification loops *)

Section Loops.

Variable allFilterTags : list string.

Lemma checkArgument_loop (l : list (string * TaggedItem)) (st : Lists) :
  fold_left (checkArgument allFilterTags) l st =
  mkLists
    (matchingNodeIds st ++
       map fst (filter (argumentMatches allFilterTags) l))
    (nonMatchingNodeIds st ++
       map fst (filter (fun e => negb (argumentMatches allFilterTags e)) l)).
Proof.
  revert st. induction l as [|[id arg] l IH]; intros st; simpl.
  - rewrite !app_nil_r. now destruct st.
  - rewrite IH. cbn [filter].
    change (argumentMatches allFilterTags (id, arg))
      with (matchesFilter allFilterTags (orEmpty (item_tags arg))).
    unfold checkArgument.
    destruct (matchesFilter allFilterTags (orEmpty (item_tags arg)));
      simpl; unfold push; rewrite <- app_assoc; reflexivity.
Qed.

Lemma checkStatement_loop (l : list (string * TaggedItem)) (st : Lists) :
  fold_left (checkStatement allFilterTags) l st =
  mkLists
    (matchingNodeIds st ++
       map fst (filter (statementMatches allFilterTags) l))
    (nonMatchingNodeIds st ++
       map fst (filter (fun e => negb (statementMatches allFilterTags e)) l)).
Proof.
  revert st. induction l as [|[id stmt] l IH]; intros st; simpl.
  - rewrite !app_nil_r. now destruct st.
  - rewrite IH. cbn [filter].
    change (statementMatches allFilterTags (id, stmt))
      with (negb (hasSpeakerTagOf (orEmpty (item_tags stmt)))
            || matchesFilter allFilterTags (orEmpty (item_tags stmt))).
    unfold checkStatement.
    destruct (negb (hasSpeakerTagOf (orEmpty (item_tags stmt)))
              || matchesFilter allFilterTags (orEmpty (item_tags stmt)));
      simpl; unfold push; rewrite <- app_assoc; reflexivity.
Qed.

(** The node loop never touches [nonMatchingNodeIds]. *)
Lemma checkNode_loop_nonMatching (l : list MapNode) (st : Lists) :
  nonMatchingNodeIds (fold_left (checkNode allFilterTags) l st) =
  nonMatchingNodeIds st.
Proof.
  revert st. induction l as [|n l IH]; intros st; simpl; [reflexivity|].
  rewrite IH. unfold checkNode.
  destruct (_ && _); [destruct (matchesFilter _ _)|]; reflexivity.
Qed.

Lemma checkNode_keeps (st : Lists) (n : MapNode) (x : string) :
  In x (matchingNodeIds st) ->
  In x (matchingNodeIds (checkNode allFilterTags st n)).
Proof.
  intros H. unfold checkNode.
  destruct (_ && _); [destruct (matchesFilter _ _)|]; simpl; auto.
  unfold push. apply in_or_app. now left.
Qed.

Lemma checkNode_loop_keeps (l : list MapNode) (st : Lists) (x : string) :
  In x (matchingNodeIds st) ->
  In x (matchingNodeIds (fold_left (checkNode allFilterTags) l st)).
Proof.
  revert st. induction l as [|n l IH]; intros st H; simpl; [exact H|].
  apply IH. now apply checkNode_keeps.
Qed.

(** Whatever the node loop adds is the identifier of a node whose own
    tags meet the filter tags, and was in neither array before. *)
Lemma checkNode_loop_origin (l : list MapNode) (st : Lists) (x : string) :
  In x (matchingNodeIds (fold_left (checkNode allFilterTags) l st)) ->
  In x (matchingNodeIds st) \/
  (~ In x (nonMatchingNodeIds st) /\
   exists n, In n l /\ node_id n = x /\ nodeMatches allFilterTags n = true).
Proof.
  revert st. induction l as [|n l IH]; intros st H; simpl in H; [now left|].
  apply IH in H. unfold checkNode in H.
  destruct (negb (arr_includes (matchingNodeIds st) (node_id n))
            && negb (arr_includes (nonMatchingNodeIds st) (node_id n)))
    eqn:Hfresh.
  - destruct (matchesFilter allFilterTags (orEmpty (node_tags n))) eqn:Hm.
    + simpl in H. destruct H as [H|[Hnm [n' [Hin Hn']]]].
      * unfold push in H. apply in_app_or in H. destruct H as [H|[H|[]]];
          [now left|]. right. subst x.
        apply andb_true_iff in Hfresh. destruct Hfresh as [_ Hf].
        apply negb_true_iff, arr_includes_not_In in Hf.
        split; [exact Hf|]. exists n. repeat split; auto. now left.
      * right. split; [exact Hnm|]. exists n'. split; [now right|exact Hn'].
    + destruct H as [H|[Hnm [n' [Hin Hn']]]]; [now left|].
      right. split; [exact Hnm|]. exists n'. split; [now right|exact Hn'].
  - destruct H as [H|[Hnm [n' [Hin Hn']]]]; [now left|].
    right. split; [exact Hnm|]. exists n'. split; [now right|exact Hn'].
Qed.

(** A node whose own tags meet the filter tags has its identifier in
    [matchingNodeIds] after the loop, unless it was already listed as
    non-matching. *)
Lemma checkNode_loop_adds (l : list MapNode) (st : Lists) (n : MapNode) :
  In n l -> nodeMatches allFilterTags n = true ->
  ~ In (node_id n) (nonMatchingNodeIds st) ->
  In (node_id n)
     (matchingNodeIds (fold_left (checkNode allFilterTags) l st)).
Proof.
  revert st. induction l as [|n0 l IH]; intros st Hin Hm Hnm; [contradiction|].
  simpl. destruct Hin as [->|Hin].
  - apply checkNode_loop_keeps. unfold checkNode.
    unfold nodeMatches in Hm. rewrite Hm.
    destruct (arr_includes (matchingNodeIds st) (node_id n)) eqn:E1; simpl.
    + now apply arr_includes_In.
    + apply arr_includes_not_In in Hnm. rewrite Hnm. simpl.
      unfold push. apply in_or_app. right. now left.
  - apply IH; auto.
    replace (nonMatchingNodeIds (checkNode allFilterTags st n0))
      with (nonMatchingNodeIds st); [exact Hnm|].
    unfold checkNode.
    destruct (_ && _); [destruct (matchesFilter _ _)|]; reflexivity.
Qed.

End Loops.

(** ** The arrays after the three loops *)

Section Classification.

Variable r : Response.
Variable sp : list string.

Local Abbreviation F := (allFilterTagsOf sp).

Lemma classify_nonMatching :
  nonMatchingNodeIds (classify r sp) =
  (map fst (filter (fun e => negb (argumentMatches F e)) (argumentEntries r))
   ++ map fst
        (filter (fun e => negb (statementMatches F e)) (statementEntries r))
  )%list.
Proof.
  unfold classify. rewrite checkNode_loop_nonMatching.
  rewrite checkStatement_loop, checkArgument_loop. reflexivity.
Qed.

(** The state handed to the node loop. *)
Lemma classify_before_nodes :
  fold_left (checkStatement F) (statementEntries r)
    (fold_left (checkArgument F) (argumentEntries r) (mkLists [] [])) =
  mkLists
    (map fst (filter (argumentMatches F) (argumentEntries r)) ++
     map fst (filter (statementMatches F) (statementEntries r)))
    (nonMatchingNodeIds (classify r sp)).
Proof.
  rewrite classify_nonMatching.
  rewrite checkStatement_loop, checkArgument_loop. reflexivity.
Qed.

Lemma classify_matching (x : string) :
  In x (matchingNodeIds (classify r sp)) <->
  In x (map fst (filter (argumentMatches F) (argumentEntries r))) \/
  In x (map fst (filter (statementMatches F) (statementEntries r))) \/
  (~ In x (nonMatchingNodeIds (classify r sp)) /\
   exists n, In n (mapNodes r) /\ node_id n = x /\ nodeMatches F n = true).
Proof.
  unfold classify at 1. cbv zeta. rewrite classify_before_nodes. split.
  - intros H. apply checkNode_loop_origin in H. simpl in H.
    rewrite in_app_iff in H. tauto.
  - intros [H|[H|[Hnm [n [Hin [Hid Hm]]]]]].
    + apply checkNode_loop_keeps. simpl. apply in_or_app. now left.
    + apply checkNode_loop_keeps. simpl. apply in_or_app. now right.
    + subst x. now apply checkNode_loop_adds.
Qed.

(** Only keys of the two dictionaries are ever listed as non-matching. *)
Lemma classify_nonMatching_key (x : string) :
  In x (nonMatchingNodeIds (classify r sp)) ->
  In x (map fst (argumentEntries r)) \/ In x (map fst (statementEntries r)).
Proof.
  rewrite classify_nonMatching, in_app_iff.
  intros [H|H]; [left|right];
    apply in_map_iff in H; destruct H as [e [<- He]];
    apply filter_In in He; apply in_map; tauto.
Qed.

End Classification.

(** ** The emitted mutations *)

Lemma emit_shape (sp : list string) (st : Lists) :
  emit sp st =
  (match matchingNodeIds st with
   | [] => []
   | _ :: _ => [emphasizeMutation sp (matchingNodeIds st)]
   end ++
   match nonMatchingNodeIds st with
   | [] => []
   | _ :: _ => [dimMutation (nonMatchingNodeIds st)]
   end)%list.
Proof.
  unfold emit, push.
  destruct (matchingNodeIds st), (nonMatchingNodeIds st); reflexivity.
Qed.

Lemma emit_emphasize_ids (sp : list string) (st : Lists) :
  idsWithEffect emphasize (emit sp st) = matchingNodeIds st.
Proof.
  rewrite emit_shape. unfold idsWithEffect.
  destruct (matchingNodeIds st), (nonMatchingNodeIds st); simpl;
    rewrite ?app_nil_r; reflexivity.
Qed.

Lemma emit_dim_ids (sp : list string) (st : Lists) :
  idsWithEffect dim (emit sp st) = nonMatchingNodeIds st.
Proof.
  rewrite emit_shape. unfold idsWithEffect.
  destruct (matchingNodeIds st), (nonMatchingNodeIds st); simpl;
    rewrite ?app_nil_r; reflexivity.
Qed.

Lemma emit_nodeIds (sp : list string) (st : Lists) (m : NodeMutation) :
  In m (emit sp st) ->
  nodeIds m = matchingNodeIds st \/ nodeIds m = nonMatchingNodeIds st.
Proof.
  rewrite emit_shape. intros H. apply in_app_or in H.
  destruct (matchingNodeIds st), (nonMatchingNodeIds st);
    simpl in H; intuition; subst m; auto.
Qed.

(** Past the guard, the function is the three loops followed by [emit]. *)
Lemma buildSpeakerMutations_active data filters r sp :
  response data = Some r -> speakers filters = Some sp -> sp <> [] ->
  buildSpeakerMutations data filters = emit sp (classify r sp).
Proof.
  intros Hr Hs Hne. unfold buildSpeakerMutations. rewrite Hr, Hs.
  destruct sp; [congruence | reflexivity].
Qed.

(** Either the guard returns the empty array, or the loops run. *)
Lemma buildSpeakerMutations_cases data filters :
  buildSpeakerMutations data filters = [] \/
  exists r sp,
    response data = Some r /\ speakers filters = Some sp /\ sp <> [] /\
    buildSpeakerMutations data filters = emit sp (classify r sp).
Proof.
  unfold buildSpeakerMutations.
  destruct (response data) as [r|]; [|now left].
  destruct (speakers filters) as [[|s sp]|]; [now left| |now left].
  right. exists r, (s :: sp). repeat split; congruence.
Qed.

(** Each dictionary holds one entry per identifier. *)
Lemma argumentEntries_functional (r : Response) k v v' :
  In (k, v) (argumentEntries r) -> In (k, v') (argumentEntries r) -> v = v'.
Proof.
  apply NoDup_fst_functional. unfold argumentEntries.
  destruct (arguments r) as [o|]; [apply (keys_NoDup o) | constructor].
Qed.

Lemma statementEntries_functional (r : Response) k v v' :
  In (k, v) (statementEntries r) -> In (k, v') (statementEntries r) -> v = v'.
Proof.
  apply NoDup_fst_functional. unfold statementEntries.
  destruct (statements r) as [o|]; [apply (keys_NoDup o) | constructor].
Qed.

(** ** Runs on the sample inputs *)

Example extractSpeakers_taggedData :
  extractSpeakers taggedData = ["amy"; "bob"; "carl"; "zoe"].
Proof. reflexivity. Qed.

Example extractSpeakers_no_response : extractSpeakers (mkData None) = [].
Proof. reflexivity. Qed.

Example buildSpeakerMutations_sharedKey :
  buildSpeakerMutations sharedKeyData (speakersOnly ["x"]) =
  [emphasizeMutation ["x"] ["a"]; dimMutation ["a"]].
Proof. reflexivity. Qed.

Example buildSpeakerMutations_twinNodes :
  buildSpeakerMutations twinNodesData (speakersOnly ["x"]) =
  [emphasizeMutation ["x"] ["n"]].
Proof. reflexivity. Qed.

(** ** Properties of buildSpeakerMutations *)

(** C1. If the data has no response structure, or the filters' speakers
    list is absent or empty, [buildSpeakerMutations] returns the empty
    sequence. *)
Theorem buildSpeakerMutations_guard data filters :
  response data = None \/
  speakers filters = None \/
  speakers filters = Some [] ->
  buildSpeakerMutations data filters = [].
Proof.
  unfold buildSpeakerMutations.
  intros [H|[H|H]]; rewrite H; [reflexivity| |];
    destruct (response data); reflexivity.
Qed.

Lemma buildSpeakerMutations_guard_witness :
  buildSpeakerMutations (sampleData None) (speakersOnly []) = [] /\
  buildSpeakerMutations (sampleData None)
    (mkFilters None None (Some ["speaker-x"]) None None) = [] /\
  buildSpeakerMutations (mkData None) (speakersOnly ["x"]) = [].
Proof.
  split; [|split].
  - apply buildSpeakerMutations_guard. right. right. reflexivity.
  - apply buildSpeakerMutations_guard. right. left. reflexivity.
  - apply buildSpeakerMutations_guard. left. reflexivity.
Defined.

(** C2, as stated, fails: with the identifier [a] a key of both the
    arguments and the statements dictionary, both untagged, the argument
    is listed as non-matching and the statement as matching, so [a] is
    carried by the emphasize and by the dim mutation. *)
Lemma emphasize_dim_overlap_counterexample :
  In "a" (idsWithEffect emphasize
            (buildSpeakerMutations sharedKeyData (speakersOnly ["x"]))) /\
  In "a" (idsWithEffect dim
            (buildSpeakerMutations sharedKeyData (speakersOnly ["x"]))).
Proof. split; simpl; left; reflexivity. Qed.

(** C2, amended. An identifier carried by both the emphasize and the dim
    mutation is a key of the arguments dictionary and a key of the
    statements dictionary; apart from such shared keys the two identifier
    sets are disjoint. *)
Theorem emphasize_dim_share_only_common_keys data filters id :
  In id (idsWithEffect emphasize (buildSpeakerMutations data filters)) ->
  In id (idsWithEffect dim (buildSpeakerMutations data filters)) ->
  exists r,
    response data = Some r /\
    In id (map fst (argumentEntries r)) /\
    In id (map fst (statementEntries r)).
Proof.
  destruct (buildSpeakerMutations_cases data filters)
    as [E|[r [sp [Hr [Hs [Hne E]]]]]]; rewrite E.
  - intros [].
  - rewrite emit_emphasize_ids, emit_dim_ids. intros Hm Hn.
    exists r. split; [exact Hr|].
    apply classify_matching in Hm.
    destruct Hm as [Hm|[Hm|[Hm _]]]; [| |contradiction].
    + (* matching as an argument: non-matching as a statement *)
      apply in_map_iff in Hm. destruct Hm as [[k a] [Hk Ha]].
      simpl in Hk. subst k. apply filter_In in Ha. destruct Ha as [Ha Hma].
      split; [change id with (fst (id, a)); now apply in_map|].
      rewrite classify_nonMatching, in_app_iff in Hn.
      destruct Hn as [Hn|Hn].
      * exfalso. apply in_map_iff in Hn. destruct Hn as [[k a'] [Hk Ha']].
        simpl in Hk. subst k. apply filter_In in Ha'. destruct Ha' as [Ha' Hna].
        assert (a = a') by (eapply argumentEntries_functional; eassumption).
        subst a'. unfold argumentMatches in *. simpl in *.
        rewrite Hma in Hna. discriminate.
      * apply in_map_iff in Hn. destruct Hn as [e [<- He]].
        apply filter_In in He. apply in_map. tauto.
    + (* matching as a statement: non-matching as an argument *)
      apply in_map_iff in Hm. destruct Hm as [[k s] [Hk Hs']].
      simpl in Hk. subst k. apply filter_In in Hs'. destruct Hs' as [Hs' Hms].
      split; [|change id with (fst (id, s)); now apply in_map].
      rewrite classify_nonMatching, in_app_iff in Hn.
      destruct Hn as [Hn|Hn].
      * apply in_map_iff in Hn. destruct Hn as [e [<- He]].
        apply filter_In in He. apply in_map. tauto.
      * exfalso. apply in_map_iff in Hn. destruct Hn as [[k s'] [Hk Hs'']].
        simpl in Hk. subst k. apply filter_In in Hs''.
        destruct Hs'' as [Hs'' Hns].
        assert (s = s') by (eapply statementEntries_functional; eassumption).
        subst s'. rewrite Hms in Hns. discriminate.
Qed.

Lemma emphasize_dim_share_only_common_keys_witness :
  exists r,
    response sharedKeyData = Some r /\
    In "a" (map fst (argumentEntries r)) /\
    In "a" (map fst (statementEntries r)).
Proof.
  apply (emphasize_dim_share_only_common_keys
           sharedKeyData (speakersOnly ["x"]) "a");
    simpl; left; reflexivity.
Defined.

(** C3, as stated, fails on its last part: the untagged statement [a] is in
    the dim mutation when [a] is also the key of an argument that carries
    no filter tag. *)
Lemma untagged_statement_dimmed_counterexample :
  exists r stmt,
    response sharedKeyData = Some r /\
    In ("a", stmt) (statementEntries r) /\
    item_tags stmt = None /\
    In "a" (idsWithEffect dim
              (buildSpeakerMutations sharedKeyData (speakersOnly ["x"]))).
Proof.
  eexists. exists noTags. split; [reflexivity|].
  split; [left; reflexivity|]. split; [reflexivity|].
  simpl. left. reflexivity.
Qed.

(** C3, amended. With a response structure and a non-empty speakers list,
    the identifier of every statement whose tag sequence is empty or absent
    is in the emphasize mutation, whichever speakers are requested; it is in
    the dim mutation exactly when the same identifier is also the key of an
    argument none of whose tags is a filter tag. *)
Theorem untagged_statement_emphasized data filters r sp id stmt :
  response data = Some r ->
  speakers filters = Some sp ->
  sp <> [] ->
  In (id, stmt) (statementEntries r) ->
  orEmpty (item_tags stmt) = [] ->
  In id (idsWithEffect emphasize (buildSpeakerMutations data filters)) /\
  (In id (idsWithEffect dim (buildSpeakerMutations data filters)) <->
   exists arg,
     In (id, arg) (argumentEntries r) /\
     matchesFilter (allFilterTagsOf sp) (orEmpty (item_tags arg)) = false).
Proof.
  intros Hr Hs Hne Hin Hnil.
  rewrite (buildSpeakerMutations_active data filters r sp Hr Hs Hne).
  rewrite emit_emphasize_ids, emit_dim_ids.
  assert (Hsm : statementMatches (allFilterTagsOf sp) (id, stmt) = true).
  { unfold statementMatches. simpl. rewrite Hnil. reflexivity. }
  split.
  - apply classify_matching. right. left.
    change id with (fst (id, stmt)). apply in_map, filter_In. now split.
  - rewrite classify_nonMatching, in_app_iff. split.
    + intros [H|H].
      * apply in_map_iff in H. destruct H as [[k arg] [Hk Harg]].
        simpl in Hk. subst k. apply filter_In in Harg.
        destruct Harg as [Harg Hnm]. exists arg. split; [exact Harg|].
        now apply negb_true_iff in Hnm.
      * exfalso. apply in_map_iff in H. destruct H as [[k stmt'] [Hk Hst]].
        simpl in Hk. subst k. apply filter_In in Hst.
        destruct Hst as [Hst Hnm].
        rewrite (statementEntries_functional r id stmt' stmt Hst Hin) in Hnm.
        rewrite Hsm in Hnm. discriminate.
    + intros [arg [Harg Hnm]]. left.
      change id with (fst (id, arg)). apply in_map, filter_In.
      split; [exact Harg|]. unfold argumentMatches. simpl. now rewrite Hnm.
Qed.

Lemma untagged_statement_emphasized_witness :
  In "a" (idsWithEffect emphasize
            (buildSpeakerMutations (sampleData (Some []))
                                   (speakersOnly ["y"]))) /\
  (In "a" (idsWithEffect dim
             (buildSpeakerMutations (sampleData (Some []))
                                    (speakersOnly ["y"]))) <->
   exists arg,
     In ("a", arg)
        (argumentEntries
           (mkResponse TagsAbsent (Some sampleArguments)
                       (Some (sampleStatements (Some []))) None)) /\
     matchesFilter (allFilterTagsOf ["y"]) (orEmpty (item_tags arg)) = false).
Proof.
  apply (untagged_statement_emphasized
           (sampleData (Some [])) (speakersOnly ["y"]) _ ["y"] "a"
           (mkItem (Some []))).
  - reflexivity.
  - reflexivity.
  - discriminate.
  - left. reflexivity.
  - reflexivity.
Defined.

(** C4. For each requested speaker [s], the filter tags used by
    [buildSpeakerMutations] contain both ["speaker-" ++ s] and [s] itself;
    so an argument carrying a tag equal to a requested speaker name (a bare,
    hyphen-free tag in particular) is pushed on [matchingNodeIds] and its
    identifier is carried by the emphasize mutation. *)
Theorem requested_speaker_tags_match data filters r sp s :
  response data = Some r ->
  speakers filters = Some sp ->
  In s sp ->
  In ("speaker-" ++ s) (allFilterTagsOf sp) /\
  In s (allFilterTagsOf sp) /\
  forall id arg,
    In (id, arg) (argumentEntries r) ->
    In s (orEmpty (item_tags arg)) ->
    In id (matchingNodeIds (classify r sp)) /\
    In id (idsWithEffect emphasize (buildSpeakerMutations data filters)).
Proof.
  intros Hr Hs Hin.
  assert (Hne : sp <> []) by (intros ->; contradiction).
  assert (Hbare : In s (allFilterTagsOf sp)).
  { unfold allFilterTagsOf. apply in_or_app. now right. }
  split; [|split; [exact Hbare|]].
  - unfold allFilterTagsOf. apply in_or_app. left.
    apply in_map_iff. exists s. now split.
  - intros id arg Harg Htag.
    rewrite (buildSpeakerMutations_active data filters r sp Hr Hs Hne).
    rewrite emit_emphasize_ids.
    assert (In id (matchingNodeIds (classify r sp))); [|now split].
    apply classify_matching. left.
    change id with (fst (id, arg)). apply in_map, filter_In.
    split; [exact Harg|]. unfold argumentMatches. simpl.
    apply matchesFilter_true. exists s. now split.
Qed.

Lemma requested_speaker_tags_match_witness :
  In "speaker-alice" (allFilterTagsOf ["alice"]) /\
  In "alice" (allFilterTagsOf ["alice"]) /\
  In "b" (matchingNodeIds (classify aliceResponse ["alice"])) /\
  In "b" (idsWithEffect emphasize
            (buildSpeakerMutations (mkData (Some aliceResponse))
                                   (speakersOnly ["alice"]))).
Proof.
  destruct (requested_speaker_tags_match
              (mkData (Some aliceResponse)) (speakersOnly ["alice"])
              aliceResponse ["alice"] "alice"
              eq_refl eq_refl (or_introl eq_refl)) as [H1 [H2 H3]].
  split; [exact H1|]. split; [exact H2|].
  apply (H3 "b" (tagged ["alice"])).
  - left. reflexivity.
  - left. reflexivity.
Defined.

(** C5, as stated, fails on its emphasize part: the second node of
    [twinNodesResponse] has an identifier that is no argument or statement
    key and carries no tag at all, yet its identifier is in the emphasize
    mutation, pushed there by the first node, which shares the identifier
    and is tagged [speaker-x]. *)
Lemma untagged_twin_node_emphasized_counterexample :
  let node := mkNode "n" None in
  In node (mapNodes twinNodesResponse) /\
  ~ In (node_id node) (map fst (argumentEntries twinNodesResponse)) /\
  ~ In (node_id node) (map fst (statementEntries twinNodesResponse)) /\
  matchesFilter (allFilterTagsOf ["x"]) (orEmpty (node_tags node)) = false /\
  In (node_id node)
     (idsWithEffect emphasize
        (buildSpeakerMutations twinNodesData (speakersOnly ["x"]))).
Proof.
  simpl. repeat split; auto.
Qed.

(** C5, amended. An identifier of the map's node list that is neither an
    argument key nor a statement key is never in the dim mutation; it is in
    the emphasize mutation only if some node of the list with that
    identifier carries a filter tag (and, when speakers are requested,
    whenever one does). So a node whose own tags miss the filter tags is
    left out of both mutations unless a node sharing its identifier has a
    filter tag. *)
Theorem unclassified_node_never_dimmed data filters r id :
  response data = Some r ->
  ~ In id (map fst (argumentEntries r)) ->
  ~ In id (map fst (statementEntries r)) ->
  let F := allFilterTagsOf (orEmpty (speakers filters)) in
  let tagged_twin :=
    exists n, In n (mapNodes r) /\ node_id n = id /\ nodeMatches F n = true in
  ~ In id (idsWithEffect dim (buildSpeakerMutations data filters)) /\
  (In id (idsWithEffect emphasize (buildSpeakerMutations data filters)) ->
   tagged_twin) /\
  (orEmpty (speakers filters) <> [] -> tagged_twin ->
   In id (idsWithEffect emphasize (buildSpeakerMutations data filters))).
Proof.
  intros Hr Ha Hs F tagged_twin. subst F tagged_twin.
  destruct (speakers filters) as [[|s sp]|] eqn:Hsp.
  - unfold buildSpeakerMutations. rewrite Hr, Hsp. simpl.
    repeat split; try tauto; congruence.
  - assert (Hne : s :: sp <> []) by discriminate.
    rewrite (buildSpeakerMutations_active data filters r _ Hr Hsp Hne).
    rewrite emit_emphasize_ids, emit_dim_ids. simpl orEmpty.
    assert (Hnm : ~ In id (nonMatchingNodeIds (classify r (s :: sp)))).
    { intros H. apply classify_nonMatching_key in H. tauto. }
    split; [exact Hnm|]. split.
    + intros H. apply classify_matching in H.
      destruct H as [H|[H|[_ H]]]; [exfalso..|exact H].
      * apply Ha. apply in_map_iff in H. destruct H as [e [<- He]].
        apply filter_In in He. apply in_map. tauto.
      * apply Hs. apply in_map_iff in H. destruct H as [e [<- He]].
        apply filter_In in He. apply in_map. tauto.
    + intros _ H. apply classify_matching. right. right. now split.
  - unfold buildSpeakerMutations. rewrite Hr, Hsp. simpl.
    repeat split; try tauto; congruence.
Qed.

Lemma unclassified_node_never_dimmed_witness :
  ~ In "g" (idsWithEffect dim
              (buildSpeakerMutations (mkData (Some groupNodeResponse))
                                     (speakersOnly ["x"]))) /\
  ~ In "g" (idsWithEffect emphasize
              (buildSpeakerMutations (mkData (Some groupNodeResponse))
                                     (speakersOnly ["x"]))).
Proof.
  destruct (unclassified_node_never_dimmed
              (mkData (Some groupNodeResponse)) (speakersOnly ["x"])
              groupNodeResponse "g" eq_refl) as [Hd [He _]].
  - simpl. intros [H|[H|[]]]; discriminate.
  - simpl. intros [H|[]]; discriminate.
  - split; [exact Hd|]. intros H. apply He in H.
    destruct H as [n [[<-|[]] [_ Hm]]]. discriminate.
Defined.

(** C6. [buildSpeakerMutations] emits at most two mutations. Past the
    guard, the emphasize mutation (reason ["Speaker: "] followed by the
    requested speakers joined with [", "], priority 10, carrying
    [matchingNodeIds]) is emitted iff [matchingNodeIds] is non-empty, the
    dim mutation (reason ["Not matching filter"], priority 0, carrying
    [nonMatchingNodeIds]) iff [nonMatchingNodeIds] is non-empty, and the
    emphasize mutation comes first when both are emitted. *)
Theorem at_most_two_mutations_emphasize_first data filters :
  List.length (buildSpeakerMutations data filters) <= 2 /\
  forall r sp,
    response data = Some r -> speakers filters = Some sp -> sp <> [] ->
    let matching := matchingNodeIds (classify r sp) in
    let nonMatching := nonMatchingNodeIds (classify r sp) in
    buildSpeakerMutations data filters =
    (match matching with
     | [] => []
     | _ :: _ =>
         [mkMutation matching emphasize
                     ("Speaker: " ++ String.concat ", " sp) 10%Z]
     end ++
     match nonMatching with
     | [] => []
     | _ :: _ => [mkMutation nonMatching dim "Not matching filter" 0%Z]
     end)%list.
Proof.
  split.
  - destruct (buildSpeakerMutations_cases data filters)
      as [E|[r [sp [_ [_ [_ E]]]]]]; rewrite E; [simpl; lia|].
    rewrite emit_shape.
    destruct (matchingNodeIds _), (nonMatchingNodeIds _); simpl; lia.
  - intros r sp Hr Hs Hne matching nonMatching.
    rewrite (buildSpeakerMutations_active data filters r sp Hr Hs Hne).
    apply emit_shape.
Qed.

Lemma at_most_two_mutations_emphasize_first_witness :
  buildSpeakerMutations (sampleData None) (speakersOnly ["x"; "y"]) =
  [mkMutation ["b"; "c"; "a"] emphasize "Speaker: x, y" 10%Z] /\
  buildSpeakerMutations (sampleData (Some ["speaker-z"]))
                        (speakersOnly ["q"]) =
  [mkMutation ["b"; "c"; "a"] dim "Not matching filter" 0%Z].
Proof.
  split.
  - apply (proj2 (at_most_two_mutations_emphasize_first
                    (sampleData None) (speakersOnly ["x"; "y"]))
                 _ ["x"; "y"] eq_refl eq_refl).
    discriminate.
  - apply (proj2 (at_most_two_mutations_emphasize_first
                    (sampleData (Some ["speaker-z"])) (speakersOnly ["q"]))
                 _ ["q"] eq_refl eq_refl).
    discriminate.
Defined.

(** C8, as stated, fails on the order of the emphasize identifiers: no
    emitted mutation carries the sequence [a, b]. *)
Lemma sample_emphasize_a_b_counterexample :
  ~ exists m,
      In m (buildSpeakerMutations (sampleData None) (speakersOnly ["x"])) /\
      effect m = emphasize /\ nodeIds m = ["a"; "b"].
Proof.
  intros [m [[<-|[<-|[]]] [_ H]]]; discriminate.
Qed.

(** C8, amended. For statements [{a: no tags}] (tags absent or empty),
    arguments [{b: ["speaker-x"], c: ["speaker-y"]}] and filter
    [{speakers: ["x"]}], the function emits an emphasize mutation with
    nodeIds [b, a] (arguments are classified before statements) followed by
    a dim mutation with nodeIds [c]. *)
Theorem sample_emphasize_b_a_dim_c :
  buildSpeakerMutations (sampleData None) (speakersOnly ["x"]) =
    [mkMutation ["b"; "a"] emphasize "Speaker: x" 10%Z;
     mkMutation ["c"] dim "Not matching filter" 0%Z] /\
  buildSpeakerMutations (sampleData (Some [])) (speakersOnly ["x"]) =
    [mkMutation ["b"; "a"] emphasize "Speaker: x" 10%Z;
     mkMutation ["c"] dim "Not matching filter" 0%Z].
Proof. split; reflexivity. Qed.

(** C9. Two filter values that agree on [speakers] give the same output:
    [argumentTypes], [tags], [showClaims] and [showArguments] have no effect
    on the emitted mutations. *)
Theorem only_speakers_field_is_read data f1 f2 :
  speakers f1 = speakers f2 ->
  buildSpeakerMutations data f1 = buildSpeakerMutations data f2.
Proof.
  intros H. unfold buildSpeakerMutations. rewrite H. reflexivity.
Qed.

Lemma only_speakers_field_is_read_witness :
  buildSpeakerMutations (sampleData None) (speakersOnly ["x"]) =
  buildSpeakerMutations (sampleData None)
    (mkFilters (Some ["x"]) (Some [attack; undercut]) (Some ["speaker-y"])
               (Some false) (Some true)).
Proof.
  apply only_speakers_field_is_read. reflexivity.
Defined.

(** C10. Every node identifier in any emitted mutation occurs in the input
    data: it is a key of the arguments dictionary, a key of the statements
    dictionary, or the id of a node in the map's node list. *)
Theorem mutation_ids_occur_in_data data filters m id :
  In m (buildSpeakerMutations data filters) ->
  In id (nodeIds m) ->
  exists r,
    response data = Some r /\
    (In id (map fst (argumentEntries r)) \/
     In id (map fst (statementEntries r)) \/
     In id (map node_id (mapNodes r))).
Proof.
  destruct (buildSpeakerMutations_cases data filters)
    as [E|[r [sp [Hr [_ [_ E]]]]]]; rewrite E; [intros []|].
  intros Hm Hid. exists r. split; [exact Hr|].
  apply emit_nodeIds in Hm. destruct Hm as [Hm|Hm]; rewrite Hm in Hid.
  - apply classify_matching in Hid.
    destruct Hid as [H|[H|[_ [n [Hn [<- _]]]]]].
    + left. apply in_map_iff in H. destruct H as [e [<- He]].
      apply filter_In in He. apply in_map. tauto.
    + right. left. apply in_map_iff in H. destruct H as [e [<- He]].
      apply filter_In in He. apply in_map. tauto.
    + right. right. now apply in_map.
  - apply classify_nonMatching_key in Hid. tauto.
Qed.

Lemma mutation_ids_occur_in_data_witness :
  exists r,
    response twinNodesData = Some r /\
    (In "n" (map fst (argumentEntries r)) \/
     In "n" (map fst (statementEntries r)) \/
     In "n" (map node_id (mapNodes r))).
Proof.
  apply (mutation_ids_occur_in_data
           twinNodesData (speakersOnly ["x"]) (emphasizeMutation ["x"] ["n"])).
  - left. reflexivity.
  - left. reflexivity.
Defined.

(** ** Further properties of the classification *)

Lemma matchesFilter_same_members (F F' tags : list string) :
  (forall t, In t F <-> In t F') ->
  matchesFilter F tags = matchesFilter F' tags.
Proof.
  intros H. apply Bool.eq_iff_eq_true. rewrite !matchesFilter_true.
  split; intros [t [H1 H2]]; exists t; split; try assumption; now apply H.
Qed.

Lemma matchesFilter_incl (F F' tags : list string) :
  incl F F' -> matchesFilter F tags = true -> matchesFilter F' tags = true.
Proof.
  intros H. rewrite !matchesFilter_true.
  intros [t [H1 H2]]. exists t. split; [now apply H | exact H2].
Qed.

Lemma allFilterTagsOf_In (sp : list string) (t : string) :
  In t (allFilterTagsOf sp) <->
  (exists s, In s sp /\ t = "speaker-" ++ s) \/ In t sp.
Proof.
  unfold allFilterTagsOf. rewrite in_app_iff, in_map_iff.
  split; intros [[s [H1 H2]]|H]; auto; left; exists s; split; congruence.
Qed.

Lemma allFilterTagsOf_incl (sp sp' : list string) :
  incl sp sp' -> incl (allFilterTagsOf sp) (allFilterTagsOf sp').
Proof.
  intros H t. rewrite !allFilterTagsOf_In.
  intros [[s [H1 H2]]|H1]; [left; exists s; split; auto | right; auto].
Qed.

Lemma fold_left_pointwise {A B : Type} (f g : A -> B -> A) :
  (forall a b, f a b = g a b) ->
  forall l a, fold_left f l a = fold_left g l a.
Proof.
  intros H l. induction l as [|b l IH]; intros a; simpl; [reflexivity|].
  rewrite H. apply IH.
Qed.

(** The loops see the filter tags only through [matchesFilter]. *)
Lemma classify_same_members (r : Response) (sp sp' : list string) :
  (forall s, In s sp <-> In s sp') ->
  classify r sp = classify r sp'.
Proof.
  intros H.
  assert (HF : forall tags,
             matchesFilter (allFilterTagsOf sp) tags =
             matchesFilter (allFilterTagsOf sp') tags).
  { intros tags. apply matchesFilter_same_members. intros t.
    split; apply allFilterTagsOf_incl; intros s; apply H. }
  unfold classify.
  rewrite (fold_left_pointwise (checkArgument (allFilterTagsOf sp))
             (checkArgument (allFilterTagsOf sp'))).
  2:{ intros st [id arg]. unfold checkArgument. now rewrite HF. }
  rewrite (fold_left_pointwise (checkStatement (allFilterTagsOf sp))
             (checkStatement (allFilterTagsOf sp'))).
  2:{ intros st [id stmt]. unfold checkStatement. now rewrite HF. }
  apply fold_left_pointwise.
  intros st n. unfold checkNode. now rewrite HF.
Qed.

Lemma filter_key_In {V : Type} (p : string * V -> bool)
  (l : list (string * V)) (id : string) :
  In id (map fst (filter p l)) <-> exists v, In (id, v) l /\ p (id, v) = true.
Proof.
  rewrite in_map_iff. split.
  - intros [[k v] [Hk H]]. simpl in Hk. subst k.
    apply filter_In in H. now exists v.
  - intros [v H]. exists (id, v). split; [reflexivity|].
    now apply filter_In.
Qed.

Lemma key_In {V : Type} (l : list (string * V)) (id : string) :
  In id (map fst l) <-> exists v, In (id, v) l.
Proof.
  rewrite in_map_iff. split.
  - intros [[k v] [Hk H]]. simpl in Hk. subst k. now exists v.
  - intros [v H]. now exists (id, v).
Qed.

Lemma NoDup_map_fst_filter {V : Type} (p : string * V -> bool)
  (l : list (string * V)) :
  NoDup (map fst l) -> NoDup (map fst (filter p l)).
Proof.
  induction l as [|e l IH]; simpl; intros H; [constructor|].
  inversion H as [|k ks Hk Hks]; subst.
  destruct (p e); simpl; auto.
  constructor; auto. intros Hin. apply Hk.
  apply in_map_iff in Hin. destruct Hin as [e' [He' Hin]].
  apply filter_In in Hin. rewrite <- He'. apply in_map. tauto.
Qed.

Lemma argumentKeys_NoDup (r : Response) : NoDup (map fst (argumentEntries r)).
Proof.
  unfold argumentEntries. destruct (arguments r) as [o|];
    [apply (keys_NoDup o) | constructor].
Qed.

Lemma statementKeys_NoDup (r : Response) :
  NoDup (map fst (statementEntries r)).
Proof.
  unfold statementEntries. destruct (statements r) as [o|];
    [apply (keys_NoDup o) | constructor].
Qed.

Lemma NoDup_push (l : list string) (x : string) :
  NoDup l -> ~ In x l -> NoDup (push l x).
Proof.
  intros H Hx. unfold push. apply NoDup_app; [exact H | repeat constructor; auto |].
  intros a Ha [<-|[]]. contradiction.
Qed.

(** The node loop pushes an identifier only when it is in neither array. *)
Lemma checkNode_loop_NoDup (F : list string) (l : list MapNode) (st : Lists) :
  NoDup (matchingNodeIds st) ->
  NoDup (matchingNodeIds (fold_left (checkNode F) l st)).
Proof.
  revert st. apply (fold_left_preserves (fun st => NoDup (matchingNodeIds st))).
  intros st n H. unfold checkNode.
  destruct (arr_includes (matchingNodeIds st) (node_id n)) eqn:E; simpl;
    [exact H|].
  destruct (negb _); [|exact H].
  destruct (matchesFilter _ _); [|exact H]. simpl.
  apply NoDup_push; [exact H | now apply arr_includes_not_In].
Qed.

(** X1. Past the guard, no argument and no statement is left out: every
    key of the arguments dictionary and every key of the statements
    dictionary is carried by the emphasize or by the dim mutation. *)
Theorem every_entry_is_classified data filters r sp id :
  response data = Some r ->
  speakers filters = Some sp ->
  sp <> [] ->
  In id (map fst (argumentEntries r)) \/
  In id (map fst (statementEntries r)) ->
  In id (idsWithEffect emphasize (buildSpeakerMutations data filters)) \/
  In id (idsWithEffect dim (buildSpeakerMutations data filters)).
Proof.
  intros Hr Hs Hne Hin.
  rewrite (buildSpeakerMutations_active data filters r sp Hr Hs Hne).
  rewrite emit_emphasize_ids, emit_dim_ids.
  rewrite classify_nonMatching, in_app_iff.
  destruct Hin as [Hin|Hin]; apply key_In in Hin; destruct Hin as [v Hv].
  - destruct (argumentMatches (allFilterTagsOf sp) (id, v)) eqn:E.
    + left. apply classify_matching. left. apply filter_key_In. now exists v.
    + right. left. apply filter_key_In. exists v. now rewrite E.
  - destruct (statementMatches (allFilterTagsOf sp) (id, v)) eqn:E.
    + left. apply classify_matching. right. left.
      apply filter_key_In. now exists v.
    + right. right. apply filter_key_In. exists v. now rewrite E.
Qed.

Lemma every_entry_is_classified_witness :
  In "c" (idsWithEffect emphasize
            (buildSpeakerMutations (sampleData None) (speakersOnly ["x"]))) \/
  In "c" (idsWithEffect dim
            (buildSpeakerMutations (sampleData None) (speakersOnly ["x"]))).
Proof.
  apply (every_entry_is_classified (sampleData None) (speakersOnly ["x"])
           _ ["x"] "c" eq_refl eq_refl).
  - discriminate.
  - left. simpl. right. left. reflexivity.
Defined.

(** X2. No emitted mutation has an empty [nodeIds] array. *)
Theorem emitted_mutations_carry_ids data filters m :
  In m (buildSpeakerMutations data filters) -> nodeIds m <> [].
Proof.
  destruct (buildSpeakerMutations_cases data filters)
    as [E|[r [sp [_ [_ [_ E]]]]]]; rewrite E; [intros []|].
  rewrite emit_shape. intros H. apply in_app_or in H.
  destruct (matchingNodeIds (classify r sp)) eqn:EM,
           (nonMatchingNodeIds (classify r sp)) eqn:EN;
    simpl in H; intuition; subst m; discriminate.
Qed.

Lemma emitted_mutations_carry_ids_witness :
  nodeIds (dimMutation ["c"]) <> [].
Proof.
  apply (emitted_mutations_carry_ids (sampleData None) (speakersOnly ["x"])).
  right. left. reflexivity.
Defined.

(** X3. The classification depends on the set of requested speakers only:
    two non-empty speaker lists with the same members (in any order, with
    or without repetitions) give mutations with the same effects, the same
    identifiers and the same priorities; only the reason text can differ. *)
Theorem speaker_order_and_repeats_are_irrelevant data f1 f2 sp1 sp2 :
  speakers f1 = Some sp1 ->
  speakers f2 = Some sp2 ->
  sp1 <> [] ->
  (forall s, In s sp1 <-> In s sp2) ->
  map (fun m => (effect m, nodeIds m, priority m))
      (buildSpeakerMutations data f1) =
  map (fun m => (effect m, nodeIds m, priority m))
      (buildSpeakerMutations data f2).
Proof.
  intros H1 H2 Hne Hsame.
  assert (Hne2 : sp2 <> []).
  { destruct sp1 as [|s sp1]; [congruence|]. intros ->.
    apply (proj1 (Hsame s)). now left. }
  unfold buildSpeakerMutations. rewrite H1, H2.
  destruct (response data) as [r|]; [|reflexivity].
  destruct sp1 as [|a sp1]; [congruence|].
  destruct sp2 as [|b sp2]; [congruence|].
  rewrite !emit_shape, (classify_same_members r _ _ Hsame).
  destruct (matchingNodeIds _), (nonMatchingNodeIds _); reflexivity.
Qed.

Lemma speaker_order_and_repeats_are_irrelevant_witness :
  map (fun m => (effect m, nodeIds m, priority m))
      (buildSpeakerMutations (sampleData None) (speakersOnly ["x"; "y"])) =
  map (fun m => (effect m, nodeIds m, priority m))
      (buildSpeakerMutations (sampleData None)
                             (speakersOnly ["y"; "x"; "y"])).
Proof.
  apply (speaker_order_and_repeats_are_irrelevant
           (sampleData None) (speakersOnly ["x"; "y"])
           (speakersOnly ["y"; "x"; "y"]) ["x"; "y"] ["y"; "x"; "y"]
           eq_refl eq_refl).
  - discriminate.
  - intros s. simpl. tauto.
Defined.

(** X4. Requesting more speakers never dims a node that was not dimmed and
    never drops a node from the emphasize mutation: if every speaker of one
    non-empty filter is also requested by another, the second filter's dim
    identifiers are among the first's, and the first's emphasize
    identifiers are among the second's. *)
Theorem more_speakers_dim_less data f1 f2 sp1 sp2 id :
  speakers f1 = Some sp1 ->
  speakers f2 = Some sp2 ->
  sp1 <> [] ->
  incl sp1 sp2 ->
  (In id (idsWithEffect dim (buildSpeakerMutations data f2)) ->
   In id (idsWithEffect dim (buildSpeakerMutations data f1))) /\
  (In id (idsWithEffect emphasize (buildSpeakerMutations data f1)) ->
   In id (idsWithEffect emphasize (buildSpeakerMutations data f2))).
Proof.
  intros H1 H2 Hne Hincl.
  assert (Hne2 : sp2 <> []).
  { destruct sp1 as [|s sp1]; [congruence|]. intros ->.
    apply (Hincl s). now left. }
  destruct (response data) as [r|] eqn:Hr.
  2:{ unfold buildSpeakerMutations. rewrite Hr. simpl. tauto. }
  rewrite (buildSpeakerMutations_active data f1 r sp1 Hr H1 Hne).
  rewrite (buildSpeakerMutations_active data f2 r sp2 Hr H2 Hne2).
  rewrite !emit_emphasize_ids, !emit_dim_ids.
  pose proof (allFilterTagsOf_incl sp1 sp2 Hincl) as HF.
  assert (Hdim : In id (nonMatchingNodeIds (classify r sp2)) ->
                 In id (nonMatchingNodeIds (classify r sp1))).
  { rewrite !classify_nonMatching, !in_app_iff, !filter_key_In.
    intros [[v [Hv Hm]]|[v [Hv Hm]]]; [left|right]; exists v;
      (split; [exact Hv|]); apply negb_true_iff in Hm;
      apply negb_true_iff.
    - unfold argumentMatches in *.
      destruct (matchesFilter (allFilterTagsOf sp1) _) eqn:E; [|reflexivity].
      apply (matchesFilter_incl _ _ _ HF) in E. congruence.
    - unfold statementMatches in *.
      apply orb_false_iff in Hm. destruct Hm as [Hm1 Hm2]. rewrite Hm1.
      destruct (matchesFilter (allFilterTagsOf sp1) _) eqn:E; [|reflexivity].
      apply (matchesFilter_incl _ _ _ HF) in E. congruence. }
  split; [exact Hdim|].
  rewrite !classify_matching, !filter_key_In.
  intros [[v [Hv Hm]]|[[v [Hv Hm]]|[Hnm [n [Hn [Hid Hm]]]]]].
  - left. exists v. split; [exact Hv|]. unfold argumentMatches in *.
    now apply (matchesFilter_incl _ _ _ HF).
  - right. left. exists v. split; [exact Hv|]. unfold statementMatches in *.
    apply orb_true_iff in Hm. apply orb_true_iff.
    destruct Hm as [Hm|Hm]; [now left|right].
    now apply (matchesFilter_incl _ _ _ HF).
  - right. right. split; [tauto|]. exists n. repeat split; auto.
    unfold nodeMatches in *. now apply (matchesFilter_incl _ _ _ HF).
Qed.

Lemma more_speakers_dim_less_witness :
  (In "c" (idsWithEffect dim
             (buildSpeakerMutations (sampleData None)
                                    (speakersOnly ["x"; "y"]))) ->
   In "c" (idsWithEffect dim
             (buildSpeakerMutations (sampleData None)
                                    (speakersOnly ["x"])))) /\
  (In "c" (idsWithEffect emphasize
             (buildSpeakerMutations (sampleData None)
                                    (speakersOnly ["x"]))) ->
   In "c" (idsWithEffect emphasize
             (buildSpeakerMutations (sampleData None)
                                    (speakersOnly ["x"; "y"])))).
Proof.
  apply (more_speakers_dim_less (sampleData None) (speakersOnly ["x"])
           (speakersOnly ["x"; "y"]) ["x"] ["x"; "y"] "c" eq_refl eq_refl).
  - discriminate.
  - intros s [<-|[]]. left. reflexivity.
Defined.

Lemma matchesFilter_requested_false (sp tags : list string) :
  matchesFilter (allFilterTagsOf sp) tags = false <->
  forall s, In s sp -> ~ In s tags /\ ~ In ("speaker-" ++ s) tags.
Proof.
  rewrite <- Bool.not_true_iff_false, matchesFilter_true. split.
  - intros H s Hs. split; intros Hin; apply H.
    + exists s. split; [|exact Hin]. apply allFilterTagsOf_In. now right.
    + exists ("speaker-" ++ s). split; [|exact Hin].
      apply allFilterTagsOf_In. left. now exists s.
  - intros H [t [Ht Hin]]. apply allFilterTagsOf_In in Ht.
    destruct Ht as [[s [Hs ->]]|Ht].
    + destruct (H s Hs) as [_ H']. now apply H'.
    + destruct (H t Ht) as [H' _]. now apply H'.
Qed.

Lemma hasSpeakerTagOf_false (tags : list string) :
  hasSpeakerTagOf tags = false <->
  forall t, In t tags ->
            startsWith t "speaker-" = false /\ str_includes t "-" = true.
Proof.
  unfold hasSpeakerTagOf, some.
  rewrite <- Bool.not_true_iff_false, existsb_exists. split.
  - intros H t Ht.
    destruct (startsWith t "speaker-") eqn:E1;
      [exfalso; apply H; exists t; now rewrite E1|].
    destruct (str_includes t "-") eqn:E2;
      [now split | exfalso; apply H; exists t; now rewrite E1, E2].
  - intros H [t [Ht Hs]]. destruct (H t Ht) as [E1 E2].
    rewrite E1, E2 in Hs. discriminate.
Qed.

(** X5. When no identifier is a key of both dictionaries, no emitted
    mutation lists an identifier twice; in particular the node loop never
    repeats an identifier that an argument, a statement or an earlier node
    has already contributed. *)
Theorem mutation_ids_are_distinct data filters r m :
  response data = Some r ->
  (forall id, In id (map fst (argumentEntries r)) ->
              ~ In id (map fst (statementEntries r))) ->
  In m (buildSpeakerMutations data filters) ->
  NoDup (nodeIds m).
Proof.
  intros Hr Hdisj.
  destruct (buildSpeakerMutations_cases data filters)
    as [E|[r' [sp [Hr' [_ [_ E]]]]]]; rewrite E; [intros []|].
  assert (r' = r) by congruence. subst r'.
  assert (Hfilter : forall p q,
    NoDup (map fst (filter p (argumentEntries r)) ++
           map fst (filter q (statementEntries r)))).
  { intros p q. apply NoDup_app.
    - apply NoDup_map_fst_filter, argumentKeys_NoDup.
    - apply NoDup_map_fst_filter, statementKeys_NoDup.
    - intros a Ha Hs. apply filter_key_In in Ha. apply filter_key_In in Hs.
      destruct Ha as [v [Hv _]]. destruct Hs as [w [Hw _]].
      apply (Hdisj a); apply key_In; eauto. }
  intros Hm. apply emit_nodeIds in Hm. destruct Hm as [-> | ->].
  - unfold classify. cbv zeta. rewrite classify_before_nodes.
    apply checkNode_loop_NoDup. simpl. apply Hfilter.
  - rewrite classify_nonMatching. apply Hfilter.
Qed.

Lemma mutation_ids_are_distinct_witness :
  NoDup (nodeIds (emphasizeMutation ["x"] ["b"; "a"])).
Proof.
  apply (mutation_ids_are_distinct (sampleData None) (speakersOnly ["x"])
           _ _ eq_refl).
  - simpl. intros id [<-|[<-|[]]] [H|[]]; discriminate.
  - left. reflexivity.
Defined.

(** X6. The exemption of statements reaches beyond untagged ones: past the
    guard, a statement none of whose tags starts with [speaker-] and all of
    whose tags contain a hyphen is carried by the emphasize mutation,
    whichever speakers are requested. *)
Theorem statement_without_speaker_tag_emphasized
  data filters r sp id stmt :
  response data = Some r ->
  speakers filters = Some sp ->
  sp <> [] ->
  In (id, stmt) (statementEntries r) ->
  (forall t, In t (orEmpty (item_tags stmt)) ->
             startsWith t "speaker-" = false /\ str_includes t "-" = true) ->
  In id (idsWithEffect emphasize (buildSpeakerMutations data filters)).
Proof.
  intros Hr Hs Hne Hin Htags.
  rewrite (buildSpeakerMutations_active data filters r sp Hr Hs Hne).
  rewrite emit_emphasize_ids. apply classify_matching. right. left.
  apply filter_key_In. exists stmt. split; [exact Hin|].
  unfold statementMatches. simpl.
  apply hasSpeakerTagOf_false in Htags. now rewrite Htags.
Qed.

Lemma statement_without_speaker_tag_emphasized_witness :
  In "s" (idsWithEffect emphasize
            (buildSpeakerMutations (mkData (Some topicResponse))
                                   (speakersOnly ["alice"]))).
Proof.
  apply (statement_without_speaker_tag_emphasized
           (mkData (Some topicResponse)) (speakersOnly ["alice"])
           topicResponse ["alice"] "s" (tagged ["topic-ai"])
           eq_refl eq_refl).
  - discriminate.
  - left. reflexivity.
  - intros t [<-|[]]. split; reflexivity.
Defined.

(** X7. Past the guard, a statement that has a speaker-like tag (one that
    starts with [speaker-] or is free of hyphens) but no tag [s] or
    [speaker-s] for a requested speaker [s] is carried by the dim
    mutation. *)
Theorem statement_of_other_speaker_dimmed data filters r sp id stmt t :
  response data = Some r ->
  speakers filters = Some sp ->
  sp <> [] ->
  In (id, stmt) (statementEntries r) ->
  In t (orEmpty (item_tags stmt)) ->
  startsWith t "speaker-" = true \/ str_includes t "-" = false ->
  (forall s, In s sp ->
             ~ In s (orEmpty (item_tags stmt)) /\
             ~ In ("speaker-" ++ s) (orEmpty (item_tags stmt))) ->
  In id (idsWithEffect dim (buildSpeakerMutations data filters)).
Proof.
  intros Hr Hs Hne Hin Ht Hlike Hnone.
  rewrite (buildSpeakerMutations_active data filters r sp Hr Hs Hne).
  rewrite emit_dim_ids, classify_nonMatching, in_app_iff. right.
  apply filter_key_In. exists stmt. split; [exact Hin|].
  unfold statementMatches. simpl.
  apply matchesFilter_requested_false in Hnone. rewrite Hnone.
  assert (Hhas : hasSpeakerTagOf (orEmpty (item_tags stmt)) = true).
  { unfold hasSpeakerTagOf, some. apply existsb_exists. exists t.
    split; [exact Ht|]. destruct Hlike as [-> | ->]; auto using orb_true_r. }
  now rewrite Hhas.
Qed.

Lemma statement_of_other_speaker_dimmed_witness :
  In "t" (idsWithEffect dim
            (buildSpeakerMutations (mkData (Some topicResponse))
                                   (speakersOnly ["alice"]))).
Proof.
  apply (statement_of_other_speaker_dimmed
           (mkData (Some topicResponse)) (speakersOnly ["alice"])
           topicResponse ["alice"] "t" (tagged ["bob"]) "bob"
           eq_refl eq_refl).
  - discriminate.
  - right. left. reflexivity.
  - left. reflexivity.
  - right. reflexivity.
  - intros s [<-|[]]. split; intros [H|[]]; discriminate.
Defined.

(** X8. Arguments have no exemption: past the guard, an argument with no
    tag [s] or [speaker-s] for a requested speaker [s] (an untagged
    argument in particular) is carried by the dim mutation. *)
Theorem argument_without_requested_tag_dimmed data filters r sp id arg :
  response data = Some r ->
  speakers filters = Some sp ->
  sp <> [] ->
  In (id, arg) (argumentEntries r) ->
  (forall s, In s sp ->
             ~ In s (orEmpty (item_tags arg)) /\
             ~ In ("speaker-" ++ s) (orEmpty (item_tags arg))) ->
  In id (idsWithEffect dim (buildSpeakerMutations data filters)).
Proof.
  intros Hr Hs Hne Hin Hnone.
  rewrite (buildSpeakerMutations_active data filters r sp Hr Hs Hne).
  rewrite emit_dim_ids, classify_nonMatching, in_app_iff. left.
  apply filter_key_In. exists arg. split; [exact Hin|].
  unfold argumentMatches. simpl.
  apply matchesFilter_requested_false in Hnone. now rewrite Hnone.
Qed.

Lemma argument_without_requested_tag_dimmed_witness :
  In "u" (idsWithEffect dim
            (buildSpeakerMutations (mkData (Some topicResponse))
                                   (speakersOnly ["alice"]))).
Proof.
  apply (argument_without_requested_tag_dimmed
           (mkData (Some topicResponse)) (speakersOnly ["alice"])
           topicResponse ["alice"] "u" noTags eq_refl eq_refl).
  - discriminate.
  - left. reflexivity.
  - intros s _. split; intros [].
Defined.

(** ** Which speakers extractSpeakers returns *)

Lemma prefix_nil (s : string) : String.prefix "" s = true.
Proof. destruct s; reflexivity. Qed.

Lemma prefix_split (p s : string) :
  String.prefix p s = true -> exists rest, s = p ++ rest.
Proof.
  revert s. induction p as [|a p IH]; intros s H.
  - now exists s.
  - destruct s as [|b s]; simpl in H; [discriminate|].
    destruct (ascii_dec a b) as [->|]; [|discriminate].
    destruct (IH s H) as [rest ->]. now exists rest.
Qed.

Lemma prefix_append (p rest : string) : String.prefix p (p ++ rest) = true.
Proof.
  induction p as [|a p IH]; simpl; [apply prefix_nil|].
  destruct (ascii_dec a a); [exact IH | congruence].
Qed.

Lemma substring_whole (s : string) : String.substring 0 (String.length s) s = s.
Proof. induction s as [|c s IH]; simpl; [reflexivity | now rewrite IH]. Qed.

(** Stripping the prefix from a prefixed tag gives the rest of the tag. *)
Lemma str_replace_speaker_prefix (rest : string) :
  str_replace ("speaker-" ++ rest) "speaker-" "" = rest.
Proof.
  unfold str_replace. destruct ("speaker-" ++ rest) eqn:E; [discriminate|].
  rewrite <- E. rewrite prefix_append. simpl.
  rewrite Nat.sub_0_r. apply substring_whole.
Qed.

Lemma speaker_prefix_has_hyphen (rest : string) :
  str_includes ("speaker-" ++ rest) "-" = true.
Proof.
  simpl. destruct rest; reflexivity.
Qed.

Lemma speakerOfTopLevelTag_Some (tag s : string) :
  speakerOfTopLevelTag tag = Some s <-> tag = "speaker-" ++ s.
Proof.
  unfold speakerOfTopLevelTag, startsWith. split.
  - destruct (String.prefix "speaker-" tag) eqn:E; [|discriminate].
    destruct (prefix_split _ _ E) as [rest ->].
    rewrite str_replace_speaker_prefix. congruence.
  - intros ->. rewrite prefix_append, str_replace_speaker_prefix.
    reflexivity.
Qed.

Lemma speakerOfItemTag_Some (tag s : string) :
  speakerOfItemTag tag = Some s <->
  tag = "speaker-" ++ s \/ (tag = s /\ str_includes s "-" = false).
Proof.
  unfold speakerOfItemTag, startsWith. split.
  - destruct (String.prefix "speaker-" tag) eqn:E.
    + destruct (prefix_split _ _ E) as [rest ->].
      rewrite str_replace_speaker_prefix. left. congruence.
    + destruct (str_includes tag "-") eqn:E2; simpl; [discriminate|].
      intros H. right. split; congruence.
  - intros [->|[-> H]].
    + rewrite prefix_append, str_replace_speaker_prefix. reflexivity.
    + destruct (String.prefix "speaker-" s) eqn:E.
      * destruct (prefix_split _ _ E) as [rest ->].
        rewrite speaker_prefix_has_hyphen in H. discriminate.
      * rewrite H. reflexivity.
Qed.

Lemma set_add_In (set : list string) (x y : string) :
  In x (set_add set y) <-> In x set \/ x = y.
Proof.
  unfold set_add, push. destruct (arr_includes set y) eqn:E.
  - apply arr_includes_In in E. split; [now left|].
    intros [H| ->]; assumption.
  - rewrite in_app_iff. simpl. intuition.
Qed.

(** Membership after a loop whose iterations only ever add. *)
Lemma fold_left_In {B : Type} (f : list string -> B -> list string)
  (Q : B -> string -> Prop) :
  (forall set b x, In x (f set b) <-> In x set \/ Q b x) ->
  forall l set x,
    In x (fold_left f l set) <-> In x set \/ exists b, In b l /\ Q b x.
Proof.
  intros Hf l. induction l as [|b l IH]; intros set x; simpl.
  - split; [now left|]. intros [H|[b [[] _]]]. exact H.
  - rewrite IH, Hf. split.
    + intros [[H|H]|[b' [H1 H2]]]; [now left | right; exists b; auto |].
      right. exists b'. auto.
    + intros [H|[b' [[->|H1] H2]]]; [now left; left | now left; right |].
      right. exists b'. auto.
Qed.

Lemma addTopLevelTag_In set tag x :
  In x (addTopLevelTag set tag) <->
  In x set \/ entryString tag = "speaker-" ++ x.
Proof.
  rewrite <- speakerOfTopLevelTag_Some.
  unfold addTopLevelTag, speakerOfTopLevelTag. fold (entryString tag).
  destruct (startsWith (entryString tag) "speaker-").
  - rewrite set_add_In. split; intros [H|H]; auto; right; congruence.
  - split; [now left|]. intros [H|H]; [exact H | discriminate].
Qed.

Lemma addTagKey_In set tagKey x :
  In x (addTagKey set tagKey) <-> In x set \/ tagKey = "speaker-" ++ x.
Proof.
  rewrite <- speakerOfTopLevelTag_Some.
  unfold addTagKey, speakerOfTopLevelTag.
  destruct (startsWith tagKey "speaker-").
  - rewrite set_add_In. split; intros [H|H]; auto; right; congruence.
  - split; [now left|]. intros [H|H]; [exact H | discriminate].
Qed.

Lemma addItemTag_In set tag x :
  In x (addItemTag set tag) <->
  In x set \/
  (tag = "speaker-" ++ x \/ (tag = x /\ str_includes x "-" = false)).
Proof.
  rewrite <- speakerOfItemTag_Some.
  unfold addItemTag, speakerOfItemTag.
  destruct (startsWith tag "speaker-"); [|destruct (negb _)].
  - rewrite set_add_In. split; intros [H|H]; auto; right; congruence.
  - rewrite set_add_In. split; intros [H|H]; auto; right; congruence.
  - split; [now left|]. intros [H|H]; [exact H | discriminate].
Qed.

Lemma addItem_In set item x :
  In x (addItem set item) <-> In x set \/ itemNames item x.
Proof.
  unfold addItem, itemNames. destruct (item_tags item) as [ts|]; simpl.
  - rewrite (fold_left_In addItemTag _ addItemTag_In). split.
    + intros [H|[t [Ht [->|[-> Hx]]]]]; auto.
    + intros [H|[H|[H Hx]]]; [now left | right..].
      * exists ("speaker-" ++ x). auto.
      * exists x. auto.
  - tauto.
Qed.

Lemma addItems_In (dict : option (JsObject TaggedItem)) set x :
  In x match dict with
       | Some o => fold_left addItem (values o) set
       | None => set
       end <->
  In x set \/
  exists id item,
    In (id, item) match dict with Some o => entries o | None => [] end /\
    itemNames item x.
Proof.
  destruct dict as [o|].
  - rewrite (fold_left_In addItem _ addItem_In). unfold values.
    split; (intros [H|H]; [now left | right]).
    + destruct H as [item [Hin Hn]]. apply in_map_iff in Hin.
      destruct Hin as [[id item'] [E Hin]]. simpl in E. subst item'.
      now exists id, item.
    + destruct H as [id [item [Hin Hn]]]. exists item. split; [|exact Hn].
      change item with (snd (id, item)). now apply in_map.
  - split; [now left|]. intros [H|[id [item [[] _]]]]. exact H.
Qed.

Lemma collectSpeakers_In (r : Response) (x : string) :
  In x (collectSpeakers r) <->
  In ("speaker-" ++ x) (topLevelTags r) \/
  exists id item, In (id, item) (taggedItems r) /\ itemNames item x.
Proof.
  unfold collectSpeakers. cbv zeta. rewrite !addItems_In.
  fold (argumentEntries r) (statementEntries r).
  assert (Htop : In x match resp_tags r with
                      | TagsArray l => fold_left addTopLevelTag l []
                      | TagsDict ks => fold_left addTagKey ks []
                      | TagsAbsent => []
                      end <-> In ("speaker-" ++ x) (topLevelTags r)).
  { unfold topLevelTags. destruct (resp_tags r) as [|l|ks].
    - reflexivity.
    - rewrite (fold_left_In addTopLevelTag _ addTopLevelTag_In).
      rewrite in_map_iff. simpl. split.
      + intros [[]|[e [He Hs]]]. now exists e.
      + intros [e [Hs He]]. right. now exists e.
    - rewrite (fold_left_In addTagKey _ addTagKey_In). simpl. split.
      + intros [[]|[k [Hk ->]]]. exact Hk.
      + intros H. right. now exists ("speaker-" ++ x). }
  rewrite Htop. unfold taggedItems. split.
  - intros [[H|[id [item [H Hn]]]]|[id [item [H Hn]]]]; [now left | right..];
      exists id, item; (split; [|exact Hn]); apply in_or_app; auto.
  - intros [H|[id [item [H Hn]]]]; [now left; left|].
    apply in_app_or in H. destruct H as [H|H].
    + left. right. now exists id, item.
    + right. now exists id, item.
Qed.

(** X9. [extractSpeakers] returns exactly the names that the tags spell
    out: [s] is in the result iff [speaker-s] is a top-level tag (an entry
    of the tag array read through itself, its [tag] or its [title]; or a key
    of the tag object), or some argument or statement has the tag
    [speaker-s], or has the tag [s] itself and [s] has no hyphen. A
    hyphen-free top-level tag is not a speaker. *)
Theorem extractSpeakers_exactly_the_tagged_names data s :
  In s (extractSpeakers data) <->
  exists r,
    response data = Some r /\
    (In ("speaker-" ++ s) (topLevelTags r) \/
     exists id item, In (id, item) (taggedItems r) /\ itemNames item s).
Proof.
  unfold extractSpeakers. destruct (response data) as [r|].
  - assert (Hsort : In s (sort (collectSpeakers r)) <->
                    In s (collectSpeakers r)).
    { split; apply Permutation_in;
        [apply sort_perm | symmetry; apply sort_perm]. }
    rewrite Hsort, collectSpeakers_In. split.
    + intros H. now exists r.
    + intros [r' [E H]]. now inversion E; subst.
  - split; [intros [] | intros [r [E _]]; discriminate].
Qed.

(** X10. The filter panel and the mutations agree: when an argument or a
    statement names [s] (by a tag [speaker-s], or by a hyphen-free tag
    [s]), then [s] is among the extracted speakers, and every filter that
    requests [s] puts that argument or statement in the emphasize
    mutation. *)
Theorem extracted_speaker_selects_its_items data r id item s :
  response data = Some r ->
  In (id, item) (taggedItems r) ->
  itemNames item s ->
  In s (extractSpeakers data) /\
  forall filters sp,
    speakers filters = Some sp ->
    In s sp ->
    In id (idsWithEffect emphasize (buildSpeakerMutations data filters)).
Proof.
  intros Hr Hin Hn. split.
  - unfold extractSpeakers. rewrite Hr.
    apply (Permutation_in _ (Permutation_sym (sort_perm _))).
    apply collectSpeakers_In. right. now exists id, item.
  - intros filters sp Hs Hsp.
    assert (Hne : sp <> []) by (intros ->; contradiction).
    rewrite (buildSpeakerMutations_active data filters r sp Hr Hs Hne).
    rewrite emit_emphasize_ids. apply classify_matching.
    assert (Hm : matchesFilter (allFilterTagsOf sp)
                   (orEmpty (item_tags item)) = true).
    { apply matchesFilter_true. destruct Hn as [Hn|[Hn _]].
      - exists ("speaker-" ++ s). split; [|exact Hn].
        apply allFilterTagsOf_In. left. now exists s.
      - exists s. split; [|exact Hn]. apply allFilterTagsOf_In. now right. }
    apply in_app_or in Hin. destruct Hin as [Hin|Hin].
    + left. apply filter_key_In. now exists item.
    + right. left. apply filter_key_In. exists item. split; [exact Hin|].
      unfold statementMatches. simpl. rewrite Hm. apply orb_true_r.
Qed.

Lemma extracted_speaker_selects_its_items_witness :
  In "bob" (extractSpeakers (mkData (Some topicResponse))) /\
  In "t" (idsWithEffect emphasize
            (buildSpeakerMutations (mkData (Some topicResponse))
                                   (speakersOnly ["alice"; "bob"]))).
Proof.
  destruct (extracted_speaker_selects_its_items
              (mkData (Some topicResponse)) topicResponse "t"
              (tagged ["bob"]) "bob" eq_refl) as [H1 H2].
  - right. right. left. reflexivity.
  - right. split; [left|]; reflexivity.
  - split; [exact H1|].
    apply (H2 (speakersOnly ["alice"; "bob"]) ["alice"; "bob"] eq_refl).
    right. left. reflexivity.
Defined.

(** ** The panel state *)

Lemma arr_includes_app (l l' : list string) (x : string) :
  arr_includes (l ++ l') x = arr_includes l x || arr_includes l' x.
Proof. unfold arr_includes. apply existsb_app. Qed.

Lemma arr_includes_filter_out (l : list string) (s x : string) :
  arr_includes (filter (fun y => negb (String.eqb y s)) l) x =
  negb (String.eqb x s) && arr_includes l x.
Proof.
  apply Bool.eq_iff_eq_true.
  rewrite andb_true_iff, negb_true_iff, !arr_includes_In, filter_In,
    negb_true_iff. tauto.
Qed.


(** The speakers array that [toggleSpeakerFilter] computes. *)
Lemma toggleSpeakerFilter_speakers (speaker : string)
  (st : ArgdownPanelState) :
  orEmpty (speakers (filters (toggleSpeakerFilter speaker st))) =
  if arr_includes (orEmpty (speakers (filters st))) speaker
  then filter (fun s => negb (String.eqb s speaker))
              (orEmpty (speakers (filters st)))
  else (orEmpty (speakers (filters st)) ++ [speaker])%list.
Proof.
  unfold toggleSpeakerFilter. simpl.
  destruct (if arr_includes _ _ then _ else _); reflexivity.
Qed.

Lemma isActive_orEmpty (st : ArgdownPanelState) (x : string) :
  isActive st x = arr_includes (orEmpty (speakers (filters st))) x.
Proof. unfold isActive. destruct (speakers (filters st)); reflexivity. Qed.

Lemma isActive_after_toggle (st : ArgdownPanelState) (s x : string) :
  isActive (toggleSpeakerFilter s st) x =
  if String.eqb x s then negb (isActive st s) else isActive st x.
Proof.
  rewrite !isActive_orEmpty, toggleSpeakerFilter_speakers.
  destruct (arr_includes (orEmpty (speakers (filters st))) s) eqn:E.
  - rewrite arr_includes_filter_out.
    destruct (String.eqb_spec x s) as [->|]; reflexivity.
  - rewrite arr_includes_app. simpl. rewrite orb_false_r.
    destruct (String.eqb_spec x s) as [->|]; [now rewrite E|].
    apply orb_false_r.
Qed.

(** X11. Clicking a speaker flips that speaker and no other: after
    [toggleSpeakerFilter s], [s] is active iff it was not, and every other
    speaker is active iff it was. *)
Theorem toggle_flips_one_speaker (st : ArgdownPanelState) (s x : string) :
  isActive (toggleSpeakerFilter s st) x =
  if String.eqb x s then negb (isActive st s) else isActive st x.
Proof.
  destruct (String.eqb x s) eqn:E.
  - rewrite isActive_after_toggle, E. reflexivity.
  - rewrite isActive_after_toggle, E. reflexivity.
Qed.

(** X12. [toggleSpeakerFilter] never stores an empty array: afterwards
    [filters.speakers] is either absent or non-empty; it keeps the array
    free of repetitions; and it leaves the other filter fields alone. *)
Theorem toggle_keeps_speakers_tidy (st : ArgdownPanelState) (s : string) :
  speakers (filters (toggleSpeakerFilter s st)) <> Some [] /\
  (NoDup (orEmpty (speakers (filters st))) ->
   NoDup (orEmpty (speakers (filters (toggleSpeakerFilter s st))))) /\
  withSpeakers (filters (toggleSpeakerFilter s st)) None =
  withSpeakers (filters st) None.
Proof.
  split; [|split].
  - unfold toggleSpeakerFilter. simpl.
    destruct (if arr_includes _ _ then _ else _); simpl; discriminate.
  - intros H. rewrite toggleSpeakerFilter_speakers.
    destruct (arr_includes _ s) eqn:E.
    + now apply NoDup_filter.
    + apply arr_includes_not_In in E. now apply NoDup_push.
  - reflexivity.
Qed.

Lemma toggle_keeps_speakers_tidy_witness :
  NoDup (orEmpty (speakers (filters
    (toggleSpeakerFilter "x"
       (handleSetFilters (speakersOnly ["y"; "x"]) initialState))))).
Proof.
  apply (proj1 (proj2 (toggle_keeps_speakers_tidy
                         (handleSetFilters (speakersOnly ["y"; "x"])
                                           initialState) "x"))).
  simpl. repeat constructor; simpl; intuition discriminate.
Defined.



Lemma hasActiveFilters_false (st : ArgdownPanelState) :
  hasActiveFilters st = false <->
  speakers (filters st) = None \/ speakers (filters st) = Some [].
Proof.
  unfold hasActiveFilters.
  destruct (speakers (filters st)) as [[|s l]|]; simpl; split;
    intros H; auto; try discriminate; destruct H; discriminate.
Qed.

(** X14. The toolbar and the renderer agree. When no filter is shown as
    active, no mutation is handed to the renderer; when a filter is shown
    as active and the loaded map has a response with at least one argument
    or statement, at least one mutation is. *)
Theorem mutations_follow_active_filters (st : ArgdownPanelState) :
  (hasActiveFilters st = false -> nodeMutations st = []) /\
  (hasActiveFilters st = true ->
   forall d r,
     data st = Some d -> response d = Some r -> taggedItems r <> [] ->
     nodeMutations st <> []).
Proof.
  split.
  - intros H. unfold nodeMutations. destruct (data st) as [d|]; [|reflexivity].
    apply hasActiveFilters_false in H. unfold buildSpeakerMutations.
    destruct (response d); [|reflexivity]. destruct H as [-> | ->]; reflexivity.
  - intros H d r Hd Hr Hitems. unfold nodeMutations. rewrite Hd.
    unfold hasActiveFilters in H.
    destruct (speakers (filters st)) as [sp|] eqn:Hs; [|discriminate].
    assert (Hne : sp <> []) by (intros ->; discriminate).
    destruct (taggedItems r) as [|[id item] rest] eqn:E; [congruence|].
    assert (Hin : In id (map fst (argumentEntries r)) \/
                  In id (map fst (statementEntries r))).
    { assert (Hi : In (id, item) (taggedItems r)) by (rewrite E; now left).
      apply in_app_or in Hi.
      destruct Hi as [Hi|Hi]; [left|right]; apply key_In; eauto. }
    intros Hnil.
    assert (Hcov :
      In id (idsWithEffect emphasize (buildSpeakerMutations d (filters st))) \/
      In id (idsWithEffect dim (buildSpeakerMutations d (filters st)))).
    { rewrite (buildSpeakerMutations_active d (filters st) r sp Hr Hs Hne).
      rewrite emit_emphasize_ids, emit_dim_ids, classify_nonMatching,
        in_app_iff, classify_matching, !filter_key_In.
      destruct Hin as [Hin|Hin]; apply key_In in Hin; destruct Hin as [v Hv].
      - destruct (argumentMatches (allFilterTagsOf sp) (id, v)) eqn:Em.
        + left. left. eauto.
        + right. left. exists v. now rewrite Em.
      - destruct (statementMatches (allFilterTagsOf sp) (id, v)) eqn:Em.
        + left. right. left. eauto.
        + right. right. exists v. now rewrite Em. }
    rewrite Hnil in Hcov. simpl in Hcov. tauto.
Qed.

Lemma mutations_follow_active_filters_witness :
  nodeMutations (toggleSpeakerFilter "x"
                   (handleLoadArgdown (mkLoadPayload (sampleData None) None)
                                      initialState)) <> [] /\
  nodeMutations (handleLoadArgdown (mkLoadPayload (sampleData None) None)
                                   initialState) = [].
Proof.
  split.
  - apply (proj2 (mutations_follow_active_filters
                    (toggleSpeakerFilter "x"
                       (handleLoadArgdown
                          (mkLoadPayload (sampleData None) None)
                          initialState)))
                 eq_refl (sampleData None) _ eq_refl eq_refl).
    discriminate.
  - apply (proj1 (mutations_follow_active_filters
                    (handleLoadArgdown
                       (mkLoadPayload (sampleData None) None)
                       initialState))).
    reflexivity.
Defined.

(** X15. Every way of loading a map or clearing the filter leaves the
    renderer without mutations and the toolbar without active filter: a
    [load-argdown] event with a payload, a file event whose content
    parses, the clear button, and a [reset-view] event that asks for
    [resetFilters]. *)
Theorem loading_or_clearing_removes_mutations
  (processArgdown : string -> ParseOutcome) (st : ArgdownPanelState)
  (s : Step) :
  (exists payload, s = EventStep (LoadArgdownEvent (Some payload))) \/
  (exists p c parsed,
     s = FileStep (mkFilePayload p (Some c)) /\ c <> "" /\
     processArgdown c = Parsed parsed) \/
  s = ControlStep ClickClear \/
  s = EventStep (ResetViewEvent (Some (mkResetPayload (Some true)))) ->
  nodeMutations (step processArgdown s st) = [] /\
  hasActiveFilters (step processArgdown s st) = false.
Proof.
  intros H.
  assert (Hf : filters (step processArgdown s st) = noFilters).
  { destruct H as [[payload ->]|[[p [c [parsed [-> [Hc Hp]]]]]|[-> | ->]]];
      try reflexivity.
    simpl. unfold handleFileSelected. simpl.
    apply String.eqb_neq in Hc. rewrite Hc, Hp. reflexivity. }
  split.
  - unfold nodeMutations. rewrite Hf.
    destruct (data (step processArgdown s st)) as [d|]; [|reflexivity].
    unfold buildSpeakerMutations. destruct (response d); reflexivity.
  - unfold hasActiveFilters. now rewrite Hf.
Qed.

Lemma loading_or_clearing_removes_mutations_witness :
  nodeMutations
    (step sampleParser (FileStep (mkFilePayload "maps/debate.argdown"
                                                (Some "ok")))
          (handleSetFilters (speakersOnly ["x"]) initialState)) = [] /\
  hasActiveFilters
    (step sampleParser (FileStep (mkFilePayload "maps/debate.argdown"
                                                (Some "ok")))
          (handleSetFilters (speakersOnly ["x"]) initialState)) = false.
Proof.
  apply loading_or_clearing_removes_mutations.
  right. left. exists "maps/debate.argdown", "ok", (sampleData None).
  split; [reflexivity|]. split; [discriminate | reflexivity].
Defined.

(** X16. A [reset-view] event that does not ask for [resetFilters] (the
    flag is false or absent, or the event has no payload) clears the
    highlighted node and changes neither the filters nor the mutations. *)
Theorem reset_view_keeps_filters (st : ArgdownPanelState)
  (payload : option ResetPayload) :
  (forall p, payload = Some p -> resetFilters p <> Some true) ->
  highlightedNode (onEvent (ResetViewEvent payload) st) = None /\
  filters (onEvent (ResetViewEvent payload) st) = filters st /\
  nodeMutations (onEvent (ResetViewEvent payload) st) = nodeMutations st.
Proof.
  intros H. destruct payload as [[[[|]|]]|]; simpl;
    try (exfalso; apply (H _ eq_refl); reflexivity);
    repeat split; reflexivity.
Qed.

Lemma reset_view_keeps_filters_witness :
  filters (onEvent (ResetViewEvent None)
             (handleSetFilters (speakersOnly ["x"]) initialState)) =
  speakersOnly ["x"].
Proof.
  apply (reset_view_keeps_filters
           (handleSetFilters (speakersOnly ["x"]) initialState) None).
  intros p H. discriminate.
Defined.

Lemma handleFileSelected_data (processArgdown : string -> ParseOutcome)
  (payload : FilePayload) (st : ArgdownPanelState) :
  data st <> None ->
  data (runUpdates (handleFileSelected processArgdown payload) st) <> None.
Proof.
  intros H. unfold handleFileSelected.
  destruct (content payload) as [c|]; [|exact H].
  destruct (String.eqb c ""); [exact H|].
  destruct (processArgdown c) as [parsed|[m|]]; simpl;
    try exact H; discriminate.
Qed.

(** X17. Nothing unloads a map: once [data] is set, it stays set through
    every panel event, every control of the panel and every file event,
    whether the file parses or not. *)
Theorem loaded_data_is_never_dropped
  (processArgdown : string -> ParseOutcome) (steps : list Step)
  (st : ArgdownPanelState) :
  data st <> None -> data (run processArgdown steps st) <> None.
Proof.
  unfold run. revert st.
  induction steps as [|s steps IH]; intros st H; simpl; [exact H|].
  apply IH. destruct s as [[[p|]|[p|]|[p|]|[p|]]|[x| |]|payload]; simpl;
    try exact H; try discriminate.
  now apply handleFileSelected_data.
Qed.

Lemma loaded_data_is_never_dropped_witness :
  data (run sampleParser
          [FileStep (mkFilePayload "broken.argdown" (Some "???"));
           EventStep (ResetViewEvent (Some (mkResetPayload (Some true))));
           ControlStep ClickClear]
          (handleLoadArgdown (mkLoadPayload (sampleData None) None)
                             initialState)) <> None.
Proof.
  apply loaded_data_is_never_dropped. discriminate.
Defined.

Lemma toggleSpeakerFilter_tidy (s : string) (st : ArgdownPanelState) :
  tidySpeakers st -> tidySpeakers (toggleSpeakerFilter s st).
Proof.
  intros H.
  assert (Hnd : NoDup (orEmpty (speakers (filters st)))).
  { unfold tidySpeakers in H.
    destruct (speakers (filters st)); [apply H | constructor]. }
  pose proof (toggleSpeakerFilter_speakers s st) as E.
  assert (Hnew : NoDup (orEmpty (speakers (filters
                                   (toggleSpeakerFilter s st))))).
  { rewrite E. destruct (arr_includes _ s) eqn:Ei.
    - now apply NoDup_filter.
    - apply arr_includes_not_In in Ei. now apply NoDup_push. }
  unfold tidySpeakers.
  destruct (speakers (filters (toggleSpeakerFilter s st))) as [l|] eqn:El;
    [|exact I].
  split; [|exact Hnew].
  intros ->. revert El. unfold toggleSpeakerFilter. simpl.
  destruct (if arr_includes _ _ then _ else _); simpl; discriminate.
Qed.

Lemma step_tidy (processArgdown : string -> ParseOutcome) (s : Step)
  (st : ArgdownPanelState) :
  isSetFilters s = false -> tidySpeakers st ->
  tidySpeakers (step processArgdown s st).
Proof.
  intros Hs H.
  destruct s as [[[p|]|[p|]|[p|]|[[[[|]|]]|]]|[x| |]|payload]; simpl;
    try exact H; try exact I; try discriminate.
  - now apply toggleSpeakerFilter_tidy.
  - unfold handleFileSelected. destruct (content payload) as [c|]; [|exact H].
    destruct (String.eqb c ""); [exact H|].
    destruct (processArgdown c) as [parsed|[m|]]; simpl;
      try exact H; exact I.
Qed.

(** X18. Starting from the initial state, as long as no [set-filters]
    event delivers a payload, the speaker filter is always either absent
    or a non-empty array without repeated speakers, whatever sequence of
    other events, controls and file events occurs. *)
Theorem speakers_stay_tidy (processArgdown : string -> ParseOutcome)
  (steps : list Step) :
  forallb (fun s => negb (isSetFilters s)) steps = true ->
  tidySpeakers (run processArgdown steps initialState).
Proof.
  assert (G : forall st, tidySpeakers st ->
              forallb (fun s => negb (isSetFilters s)) steps = true ->
              tidySpeakers (run processArgdown steps st)).
  { unfold run. induction steps as [|s steps IH]; intros st H Hall; simpl;
      [exact H|].
    simpl in Hall. apply andb_true_iff in Hall. destruct Hall as [Hs Hall].
    apply IH; [|exact Hall]. apply step_tidy; [|exact H].
    now apply negb_true_iff. }
  apply G. exact I.
Qed.

Lemma speakers_stay_tidy_witness :
  tidySpeakers
    (run sampleParser
       [ControlStep (ClickSpeaker "x"); ControlStep (ClickSpeaker "y");
        ControlStep (ClickSpeaker "x"); ControlStep (ClickSpeaker "y")]
       initialState).
Proof.
  apply speakers_stay_tidy. reflexivity.
Defined.

(** X19. A file event without content changes nothing. A file event whose
    content does not parse keeps the loaded map, its title, the filters and
    hence the mutations; it ends with [isLoading] false and with [error]
    set to the thrown message, or to a fixed text when the thrown value is
    not an [Error]. *)
Theorem unparsed_file_keeps_the_map
  (processArgdown : string -> ParseOutcome) (payload : FilePayload)
  (st : ArgdownPanelState) :
  let st' := step processArgdown (FileStep payload) st in
  (content payload = None \/ content payload = Some "" -> st' = st) /\
  (forall c thrown,
     content payload = Some c -> c <> "" ->
     processArgdown c = Thrown thrown ->
     data st' = data st /\ title st' = title st /\
     filters st' = filters st /\ nodeMutations st' = nodeMutations st /\
     isLoading st' = false /\
     error st' = Some match thrown with
                      | Some message => message
                      | None => "Failed to parse argdown content"
                      end).
Proof.
  simpl. unfold handleFileSelected. split.
  - intros [-> | ->]; reflexivity.
  - intros c thrown -> Hc ->. apply String.eqb_neq in Hc. rewrite Hc.
    destruct thrown; simpl; repeat split; reflexivity.
Qed.

Lemma unparsed_file_keeps_the_map_witness :
  let st := handleLoadArgdown (mkLoadPayload (sampleData None) (Some "Debate"))
                              initialState in
  let st' := step sampleParser
                  (FileStep (mkFilePayload "broken.argdown" (Some "???"))) st in
  data st' = data st /\ title st' = title st /\
  filters st' = filters st /\ nodeMutations st' = nodeMutations st /\
  isLoading st' = false /\ error st' = Some "syntax error".
Proof.
  apply (proj2 (unparsed_file_keeps_the_map sampleParser
                  (mkFilePayload "broken.argdown" (Some "???"))
                  (handleLoadArgdown
                     (mkLoadPayload (sampleData None) (Some "Debate"))
                     initialState))
               "???" (Some "syntax error") eq_refl).
  - discriminate.
  - reflexivity.
Defined.

(** ** File names and titles *)

Lemma split_slash_nonempty (s : string) : split_slash s <> [].
Proof.
  destruct s as [|c s]; simpl; [discriminate|].
  destruct (Ascii.eqb c "/"); [discriminate|].
  destruct (split_slash s); discriminate.
Qed.

Lemma last_cons_nonempty {A : Type} (x : A) (l : list A) (d : A) :
  l <> [] -> List.last (x :: l) d = List.last l d.
Proof. destruct l; [congruence | reflexivity]. Qed.

Lemma split_slash_after (a b : string) :
  exists first others,
    split_slash (a ++ String "/" b) = first :: others /\
    others <> [] /\
    List.last others "" = List.last (split_slash b) "".
Proof.
  induction a as [|c a IH]; simpl.
  - exists "", (split_slash b). repeat split. apply split_slash_nonempty.
  - destruct IH as [first [others [E [Hne Hl]]]]. rewrite E.
    destruct (Ascii.eqb c "/").
    + exists "", (first :: others). repeat split; [discriminate|].
      now rewrite last_cons_nonempty.
    + exists (String c first), others. now repeat split.
Qed.

Lemma no_slash_single (s : string) :
  str_includes s "/" = false -> split_slash s = [s].
Proof.
  induction s as [|c s IH]; simpl; [reflexivity|].
  intros H. apply orb_false_iff in H. destruct H as [H1 H2].
  destruct (Ascii.eqb_spec c "/") as [->|Hne].
  - simpl in H1. rewrite prefix_nil in H1. discriminate.
  - now rewrite (IH H2).
Qed.

Lemma fileName_after_slash (dir file : string) :
  str_includes file "/" = false -> file <> "" ->
  fileName (dir ++ String "/" file) = file.
Proof.
  intros Hs Hne. unfold fileName.
  destruct (split_slash_after dir file) as [first [others [E [Hn Hl]]]].
  rewrite E, last_cons_nonempty, Hl, (no_slash_single _ Hs) by exact Hn.
  simpl. apply String.eqb_neq in Hne. now rewrite Hne.
Qed.

Lemma fileName_trailing_slash (dir : string) :
  fileName (dir ++ "/") = dir ++ "/".
Proof.
  unfold fileName.
  destruct (split_slash_after dir "") as [first [others [E [Hn Hl]]]].
  rewrite E, last_cons_nonempty, Hl by exact Hn. reflexivity.
Qed.

Lemma str_map_append f (a b : string) :
  str_map f (a ++ b) = str_map f a ++ str_map f b.
Proof. induction a as [|c a IH]; simpl; [reflexivity | now rewrite IH]. Qed.

Lemma str_map_length f (a : string) :
  String.length (str_map f a) = String.length a.
Proof. induction a as [|c a IH]; simpl; [reflexivity | now rewrite IH]. Qed.

Lemma append_length (a b : string) :
  String.length (a ++ b) = String.length a + String.length b.
Proof. induction a as [|c a IH]; simpl; [reflexivity | now rewrite IH]. Qed.

Lemma isExtension_cases (s : string) :
  isExtension s = true <->
  str_map foldCase s = ".argdown" \/ str_map foldCase s = ".ad" \/
  str_map foldCase s = ".md".
Proof.
  unfold isExtension. rewrite !orb_true_iff, !String.eqb_eq. tauto.
Qed.

(** An extension has its only dot in front: nothing longer that ends with
    an extension is an extension. *)
Lemma extension_not_extended (c : ascii) (p ext : string) :
  isExtension ext = true -> isExtension (String c (p ++ ext)) = false.
Proof.
  intros He. apply Bool.not_true_iff_false. intros H.
  apply isExtension_cases in He. apply isExtension_cases in H.
  simpl in H. rewrite str_map_append in H.
  remember (str_map foldCase p) as fp. remember (foldCase c) as fc.
  clear Heqfp Heqfc.
  destruct He as [E|[E|E]]; rewrite E in H; clear E;
    destruct H as [H|[H|H]];
    try (apply (f_equal String.length) in H; simpl in H;
         rewrite append_length in H; simpl in H; lia);
    destruct fp as [|a1 [|a2 [|a3 [|a4 [|a5 fp]]]]]; simpl in H;
    try discriminate H;
    apply (f_equal String.length) in H; simpl in H;
    rewrite append_length in H; simpl in H; lia.
Qed.

Lemma stripExtension_unfold (s : string) :
  stripExtension s =
  if isExtension s then ""
  else match s with
       | EmptyString => ""
       | String c s' => String c (stripExtension s')
       end.
Proof. destruct s; reflexivity. Qed.

Lemma stripExtension_append (name ext : string) :
  isExtension ext = true -> stripExtension (name ++ ext) = name.
Proof.
  intros He. induction name as [|c name IH].
  - change ("" ++ ext) with ext. now rewrite stripExtension_unfold, He.
  - change (String c name ++ ext) with (String c (name ++ ext)).
    rewrite stripExtension_unfold, (extension_not_extended c name ext He).
    now rewrite IH.
Qed.

Lemma endsWith_append (a b : string) : endsWith (a ++ b) b = true.
Proof.
  induction a as [|c a IH]; simpl.
  - destruct b; simpl; rewrite ?String.eqb_refl, ?Ascii.eqb_refl; auto.
  - rewrite IH. apply orb_true_r.
Qed.


Lemma endsWith_split (s suffix : string) :
  endsWith s suffix = true -> exists front, s = front ++ suffix.
Proof.
  induction s as [|c s IH]; intros H.
  - destruct suffix; [now exists ""|discriminate].
  - change (String.eqb (String c s) suffix || endsWith s suffix = true) in H.
    apply orb_true_iff in H. destruct H as [H|H].
    + apply String.eqb_eq in H. now exists "".
    + destruct (IH H) as [front ->]. now exists (String c front).
Qed.

Lemma str_map_append_inv f (s a b : string) :
  str_map f s = a ++ b ->
  exists p e, s = p ++ e /\ str_map f p = a /\ str_map f e = b.
Proof.
  revert s. induction a as [|c a IH]; intros s H.
  - now exists "", s.
  - destruct s as [|d s]; [discriminate|]. simpl in H.
    injection H as Hc Hs. destruct (IH s Hs) as [p [e [-> [Hp He]]]].
    exists (String d p), e. simpl. now rewrite Hc, Hp.
Qed.

(** X20. A file whose content parses is titled by its bare name: for a
    path [dir/name.ext] (or just [name.ext]) whose last part has no slash
    and whose [.ext] is [.argdown], [.ad] or [.md] in any mix of upper and
    lower case, the state ends with the parsed data, the title [name],
    [isLoading] false and no error. A dot inside [name] stays: only the
    final extension is cut. *)
Theorem parsed_file_is_titled_by_its_name
  (processArgdown : string -> ParseOutcome) (st : ArgdownPanelState)
  (dir name ext c : string) (parsed : ArgdownMapData) :
  isExtension ext = true ->
  str_includes (name ++ ext) "/" = false ->
  c <> "" ->
  processArgdown c = Parsed parsed ->
  forall p,
    p = dir ++ String "/" (name ++ ext) \/ p = name ++ ext ->
    let st' := step processArgdown (FileStep (mkFilePayload p (Some c))) st in
    data st' = Some parsed /\ title st' = Some name /\
    isLoading st' = false /\ error st' = None.
Proof.
  intros He Hs Hc Hp p Hpath. simpl. unfold handleFileSelected. simpl.
  apply String.eqb_neq in Hc. rewrite Hc, Hp. simpl.
  repeat split. f_equal.
  assert (Hne : name ++ ext <> "").
  { destruct name; [|discriminate].
    destruct ext; [discriminate He | discriminate]. }
  unfold fileTitle. destruct Hpath as [-> | ->].
  - rewrite (fileName_after_slash dir _ Hs Hne).
    now apply stripExtension_append.
  - unfold fileName. rewrite (no_slash_single _ Hs). simpl.
    apply String.eqb_neq in Hne. rewrite Hne.
    now apply stripExtension_append.
Qed.

Lemma parsed_file_is_titled_by_its_name_witness :
  title (step sampleParser
              (FileStep (mkFilePayload "maps/2024/ai.debate.ArgDown"
                                       (Some "ok")))
              initialState) = Some "ai.debate".
Proof.
  apply (parsed_file_is_titled_by_its_name sampleParser initialState
           "maps/2024" "ai.debate" ".ArgDown" "ok" (sampleData None)
           eq_refl eq_refl).
  - discriminate.
  - reflexivity.
  - left. reflexivity.
Defined.

(** X21. A path that ends with a slash has no last part to fall back on:
    [fileName] is then the whole path. *)
Theorem fileName_of_directory_path (dir : string) :
  fileName (dir ++ "/") = dir ++ "/".
Proof. apply fileName_trailing_slash. Qed.

(** X22. [isArgdownFile] accepts exactly the paths that end with
    [.argdown] or [.ad] once lower-cased: the path splits into a front and
    an ending whose lower-case form is one of the two. A path ending in
    [.md] is not accepted, although the title of a parsed file drops
    [.md] too. *)
Theorem isArgdownFile_exactly_two_endings (path : string) :
  isArgdownFile path = true <->
  exists front ext,
    path = front ++ ext /\
    (toLowerCase ext = ".argdown" \/ toLowerCase ext = ".ad").
Proof.
  split.
  - unfold isArgdownFile, toLowerCase. intros H.
    apply orb_true_iff in H.
    destruct H as [H|H]; apply endsWith_split in H; destruct H as [a H];
      apply str_map_append_inv in H; destruct H as [p [e [-> [_ He]]]];
      exists p, e; auto.
  - intros [front [ext [-> H]]]. unfold isArgdownFile, toLowerCase in *.
    rewrite str_map_append.
    destruct H as [-> | ->]; rewrite endsWith_append; auto using orb_true_r.
Qed.

Example isArgdownFile_samples :
  isArgdownFile "notes/Debate.ARGDOWN" = true /\
  isArgdownFile "a.Ad" = true /\
  isArgdownFile "readme.md" = false /\
  isArgdownFile "argdown" = false.
Proof. repeat split. Qed.

Example fileTitle_samples :
  fileTitle "a/b/c.md" = "c" /\ fileTitle "plain" = "plain" /\
  fileTitle "dir/" = "dir/" /\ fileTitle "x.ad.txt" = "x.ad.txt" /\
  fileTitle "" = "".
Proof. repeat split. Qed.

(** ** Loading and error display *)

Lemma step_isLoading (processArgdown : string -> ParseOutcome) (s : Step)
  (st : ArgdownPanelState) :
  isLoading st = false -> isLoading (step processArgdown s st) = false.
Proof.
  intros H.
  destruct s as [[[p|]|[p|]|[p|]|[p|]]|[x| |]|payload]; simpl; try exact H.
  unfold handleFileSelected. destruct (content payload) as [c|]; [|exact H].
  destruct (String.eqb c ""); [exact H|].
  destruct (processArgdown c) as [parsed|[m|]]; reflexivity.
Qed.

(** X23. The spinner is never left on: starting from the initial state,
    after any sequence of events, controls and file events (each file
    event taken with its parse settled), [isLoading] is false, whether the
    files parsed or not. *)
Theorem loading_flag_is_never_left_on
  (processArgdown : string -> ParseOutcome) (steps : list Step) :
  isLoading (run processArgdown steps initialState) = false.
Proof.
  assert (G : forall st, isLoading st = false ->
                         isLoading (run processArgdown steps st) = false).
  { unfold run. induction steps as [|s steps IH]; intros st H; simpl;
      [exact H|].
    apply IH. now apply step_isLoading. }
  apply G. reflexivity.
Qed.



